(** * Temporian: graph construction of the glue, unary and calendar operators

    A shallow embedding of

      - [temporian/core/operators/glue.py]            (module [Glue]),
      - [temporian/core/operators/unary.py]           (module [Unary]),
      - [temporian/core/operators/calendar/minute.py] (module [Calendar]),

    together with the properties of the operator/graph contract that the
    specification states about them.

    Python objects are immutable once built here, so an object is modelled
    as its identity (a natural number, the value of the allocation counter
    when it was created) together with its contents; [x is y] compares the
    identities only.  Constructors that allocate take the allocation
    counter and return the new one.  A raised exception is the [Raise]
    branch of [Result]. *)

From stdpp Require Import base decidable option list gmap sets strings pretty.

Set Default Proof Using "Type".
Set Warnings "-clear-no-such-hyp".


(** ** Values shared by the three source files *)

(** [temporian.core.data.dtype.DType]. *)
Inductive DType : Type :=
| BOOLEAN | INT32 | INT64 | FLOAT32 | FLOAT64 | STRING.

#[global] Instance DType_eq_dec : EqDecision DType.
Proof. solve_decision. Defined.

(** A Python f-string, kept as its literal pieces and interpolated values. *)
Inductive Fragment : Type :=
| Lit (text : string)
| FmtStr (s : string)
| FmtInt (n : nat)
| FmtDType (d : DType)
| FmtDTypes (ds : list DType)
| FmtType (type_name : string).

(** The double-quote character of the glue message. *)
Definition dquote : string := String (Ascii.ascii_of_nat 34) EmptyString.

(** The messages of the [raise] statements of the three source files, one
    constructor per statement, carrying the interpolated values. *)
Inductive Message : Type :=
| At_least_two_arguments
| Too_many_arguments (max : nat)
| Feature_defined_in_multiple_inputs (feature_name : string)
| Input_must_be_Node (got : string)
| DTypes_supported (allowed : list DType) (feature_name : string) (feature_dtype : DType).

(** The text of each message, as the source writes it. *)
Definition format (m : Message) : list Fragment :=
  match m with
  | At_least_two_arguments =>
      [Lit "At least two arguments should be provided"]
  | Too_many_arguments max =>
      [Lit "Too many (>"; FmtInt max; Lit ") arguments provided"]
  | Feature_defined_in_multiple_inputs f =>
      [Lit ("Feature " +:+ dquote); FmtStr f;
       Lit (dquote +:+ " is defined in multiple input nodes to glue. Consider using prefix() or rename().")]
  | Input_must_be_Node got =>
      [Lit "Input must be of type Node but got "; FmtType got]
  | DTypes_supported allowed f d =>
      [Lit "DTypes supported by the operator: "; FmtDTypes allowed;
       Lit ". Got feature "; FmtStr f; Lit " with dtype "; FmtDType d; Lit "."]
  end.

(** What goes wrong when an operator's slots are registered and checked
    (the base class [temporian.core.operators.base.Operator], which is not
    among the source files). *)
Inductive SlotFault : Type :=
| Unknown_slot (slot : string)
| Already_bound_slot (slot : string)
| Missing_required_slot (slot : string).

(** Exceptions.  [ValueError], [TypeError], [AssertionError] and [KeyError]
    are the ones the three source files raise themselves; the last three
    are raised by code that the source files only call, and carry the
    names the specification gives them. *)
Inductive Exception : Type :=
| ValueError (m : Message)
| TypeError (m : Message)
| AssertionError
| KeyError (k : string)
| SamplingMismatchError
| GraphConstructionError (operator_key : string) (fault : SlotFault)
| PreconditionError.

Inductive Result (A : Type) : Type :=
| Ok (a : A)
| Raise (e : Exception).
Arguments Ok {A} a.
Arguments Raise {A} e.

#[global] Instance Result_ret : MRet Result := fun _ a => Ok a.
#[global] Instance Result_bind : MBind Result := fun _ _ k r =>
  match r with
  | Ok a => k a
  | Raise e => Raise e
  end.

(** The allocation counter: the number of objects created so far. *)
Definition Heap : Type := nat.

(** ** The operator base class *)

Module Base.

(** [pb.OperatorDef]: the key, the input slots with their [is_optional]
    flag, and the output slots. *)
Record OperatorDef : Type := {
  key : string;
  def_inputs : list (string * bool);
  def_outputs : list string
}.

Section Operator.
(** The class of the nodes ([Node], [EventSetNode]) an operator links. *)
Context {N : Type}.

(** An [Operator] instance: its identity, its class's definition and the
    two insertion-ordered dictionaries [_inputs] and [_outputs]. *)
Record Operator : Type := {
  op_oid : nat;
  definition : OperatorDef;
  inputs : list (string * N);
  outputs : list (string * N)
}.

(** [Operator.__init__]: a new operator with nothing bound. *)
Definition Operator__init__ (d : OperatorDef) (heap : Heap) : Operator * Heap :=
  ({| op_oid := heap; definition := d; inputs := []; outputs := [] |}, S heap).

(** Modelled from the spec: [Operator.add_input], of the base class that
    is not among the source files.  It registers the edge and rejects an
    unknown slot name and the re-registration of a bound slot. *)
Definition add_input (self : Operator) (slot : string) (node : N) : Result Operator :=
  if decide (slot ∈ (def_inputs (definition self)).*1) then
    if decide (slot ∈ (inputs self).*1) then
      Raise (GraphConstructionError (key (definition self)) (Already_bound_slot slot))
    else
      Ok {| op_oid := op_oid self; definition := definition self;
            inputs := inputs self ++ [(slot, node)]; outputs := outputs self |}
  else Raise (GraphConstructionError (key (definition self)) (Unknown_slot slot)).

(** Modelled from the spec: [Operator.add_output], as [add_input]. *)
Definition add_output (self : Operator) (slot : string) (node : N) : Result Operator :=
  if decide (slot ∈ def_outputs (definition self)) then
    if decide (slot ∈ (outputs self).*1) then
      Raise (GraphConstructionError (key (definition self)) (Already_bound_slot slot))
    else
      Ok {| op_oid := op_oid self; definition := definition self;
            inputs := inputs self; outputs := outputs self ++ [(slot, node)] |}
  else Raise (GraphConstructionError (key (definition self)) (Unknown_slot slot)).

(** The first declared input slot that is required and not bound. *)
Definition missing_input (self : Operator) : option string :=
  fst <$> List.find (fun d : string * bool =>
                       negb d.2 && negb (bool_decide (d.1 ∈ (inputs self).*1)))
                    (def_inputs (definition self)).

(** The first declared output slot that is not bound. *)
Definition missing_output (self : Operator) : option string :=
  List.find (fun d : string => negb (bool_decide (d ∈ (outputs self).*1)))
            (def_outputs (definition self)).

(** Modelled from the spec: [Operator.check], the validation gate at the
    end of every constructor.  It rejects the omission of a required
    input slot and of a declared output slot. *)
Definition check (self : Operator) : Result unit :=
  match missing_input self with
  | Some slot => Raise (GraphConstructionError (key (definition self)) (Missing_required_slot slot))
  | None =>
      match missing_output self with
      | Some slot => Raise (GraphConstructionError (key (definition self)) (Missing_required_slot slot))
      | None => Ok ()
      end
  end.

(** [self.outputs[slot]]; a missing key raises [KeyError]. *)
Definition get_output (self : Operator) (slot : string) : Result N :=
  match List.find (fun kv : string * N => bool_decide (kv.1 = slot)) (outputs self) with
  | Some (_, node) => Ok node
  | None => Raise (KeyError slot)
  end.

End Operator.
Arguments Operator : clear implicits.

End Base.

(** ** The data model of [glue.py] and [calendar/minute.py] *)

Module Data.

(** [temporian.core.data.schema.FeatureSchema] and [IndexSchema]. *)
Record FeatureSchema : Type := { name : string; dtype : DType }.
Record IndexSchema : Type := { index_name : string; index_dtype : DType }.

(** [temporian.core.data.schema.Schema]. *)
Record Schema : Type := {
  features : list FeatureSchema;
  indexes : list IndexSchema;
  is_unix_timestamp : bool
}.

(** A sampling node and a feature node: an identity and the operator that
    created it ([None] for a graph input). *)
Record SamplingNode : Type := { sampling_oid : nat; sampling_creator : option nat }.
Record FeatureNode : Type := { feature_oid : nat; feature_creator : option nat }.

(** [temporian.core.data.node.Node] (later renamed [EventSetNode]). *)
Record Node : Type := {
  node_oid : nat;
  schema : Schema;
  feature_nodes : list FeatureNode;
  sampling_node : SamplingNode;
  creator : option nat
}.

(** [x.sampling_node is y.sampling_node]. *)
Definition same_sampling (x y : Node) : Prop :=
  sampling_oid (sampling_node x) = sampling_oid (sampling_node y).

#[global] Instance same_sampling_dec x y : Decision (same_sampling x y).
Proof. unfold same_sampling. apply _. Defined.

(** Modelled from the spec: [Node.check_same_sampling], of the class
    [Node] that is not among the source files.  The comparison is the
    identity of the two sampling objects, never their contents, and its
    failure is a [SamplingMismatchError]. *)
Definition check_same_sampling (self other : Node) : Result unit :=
  if decide (same_sampling self other) then Ok () else Raise SamplingMismatchError.

(** [create_node_with_new_reference]: a new node object that refers to the
    given schema, feature nodes and sampling node. *)
Definition create_node_with_new_reference (schema : Schema) (sampling : SamplingNode)
    (features : list FeatureNode) (creator : option nat) (heap : Heap) : Node * Heap :=
  ({| node_oid := heap; schema := schema; feature_nodes := features;
      sampling_node := sampling; creator := creator |}, S heap).

(** The feature names of a node, in schema order. *)
Definition feature_names_of (n : Node) : list string := name <$> features (schema n).

End Data.

(** ** [temporian/core/operators/glue.py] *)

Module Glue.
Import Base Data.

(** Maximum number of arguments taken by the glue operator. *)
Definition MAX_NUM_ARGUMENTS : nat := 30.

(** The slot name [f"input_{idx}"]. *)
Definition input_key (idx : nat) : string := "input_" +:+ pretty idx.

(** [GlueOperator.build_op_definition]. *)
Definition build_op_definition : OperatorDef :=
  {| key := "GLUE";
     def_inputs := (fun idx => (input_key idx, bool_decide (2 ≤ idx)%nat)) <$> seq 0 MAX_NUM_ARGUMENTS;
     def_outputs := ["output"] |}.

(** The local variables of the loop of [GlueOperator.__init__]. *)
Record Locals : Type := {
  self : Operator Node;
  output_features : list FeatureNode;
  output_feature_schemas : list FeatureSchema;
  feature_names : gset string;
  first_sampling_node : option Node
}.

(** The inner loop: [for f in input.schema.features]. *)
Fixpoint add_feature_names (fs : list FeatureSchema) (feature_names : gset string)
    : Result (gset string) :=
  match fs with
  | [] => Ok feature_names
  | f :: fs' =>
      if decide (name f ∈ feature_names) then
        Raise (ValueError (Feature_defined_in_multiple_inputs (name f)))
      else add_feature_names fs' ({[name f]} ∪ feature_names)
  end.

(** One turn of the outer loop: [for key, input in inputs.items()]. *)
Definition loop_body (l : Locals) (key : string) (input : Node) : Result Locals :=
  self' ← add_input (self l) key input;
  names ← add_feature_names (features (schema input)) (feature_names l);
  first ← match first_sampling_node l with
          | None => Ok input
          | Some first => check_same_sampling input first ≫= fun _ => Ok first
          end;
  Ok {| self := self';
        output_features := output_features l ++ feature_nodes input;
        output_feature_schemas := output_feature_schemas l ++ features (schema input);
        feature_names := names;
        first_sampling_node := Some first |}.

Fixpoint loop (inputs : list (string * Node)) (l : Locals) : Result Locals :=
  match inputs with
  | [] => Ok l
  | (key, input) :: rest => loop_body l key input ≫= loop rest
  end.

(** [GlueOperator.__init__]; its keyword arguments [inputs] are the
    insertion-ordered list of their (key, node) pairs. *)
Definition GlueOperator (inputs : list (string * Node)) (heap : Heap)
    : Result (Operator Node * Heap) :=
  let '(self0, heap) := Operator__init__ build_op_definition heap in
  if decide (length inputs < 2)%nat then Raise (ValueError At_least_two_arguments)
  else if decide (MAX_NUM_ARGUMENTS ≤ length inputs)%nat then
    Raise (ValueError (Too_many_arguments MAX_NUM_ARGUMENTS))
  else
    l ← loop inputs {| self := self0; output_features := [];
                       output_feature_schemas := []; feature_names := ∅;
                       first_sampling_node := None |};
    match first_sampling_node l with
    | None => Raise AssertionError
    | Some first =>
        let '(node, heap) :=
          create_node_with_new_reference
            {| features := output_feature_schemas l;
               indexes := indexes (schema first);
               is_unix_timestamp := is_unix_timestamp (schema first) |}
            (sampling_node first) (output_features l) (Some (op_oid self0)) heap in
        self' ← add_output (self l) "output" node;
        check self' ≫= fun _ => Ok (self', heap)
    end.

(** [inputs_dict] of [glue]: the nodes under the keys [input_0], [input_1], ... *)
Definition inputs_dict (inputs : list Node) : list (string * Node) :=
  imap (fun idx input => (input_key idx, input)) inputs.

(** The public function [glue], on its positional arguments [inputs]. *)
Definition glue (inputs : list Node) (heap : Heap) : Result (Node * Heap) :=
  match inputs with
  | [input] => Ok (input, heap)
  | _ =>
      '(op, heap) ← GlueOperator (inputs_dict inputs) heap;
      node ← get_output op "output";
      Ok (node, heap)
  end.

(** *** Example nodes *)

(** Two sampling objects with the same contents. *)
Definition S0 : SamplingNode := {| sampling_oid := 0; sampling_creator := None |}.
Definition S1 : SamplingNode := {| sampling_oid := 1; sampling_creator := None |}.

(** A graph input with [FLOAT64] features of the given names. *)
Definition input_node (oid : nat) (names : list string) (sampling : SamplingNode) : Node :=
  {| node_oid := oid;
     schema := {| features := (fun n => {| name := n; dtype := FLOAT64 |}) <$> names;
                  indexes := [{| index_name := "x"; index_dtype := INT32 |}];
                  is_unix_timestamp := false |};
     feature_nodes := imap (fun i _ => {| feature_oid := 100 * oid + i; feature_creator := None |}) names;
     sampling_node := sampling;
     creator := None |}.

(** *** The vocabulary of the properties *)

(** The sampling node every later input is compared with. *)
Definition first_of (l : Locals) (inputs : list (string * Node)) : option Node :=
  match first_sampling_node l with
  | Some first => Some first
  | None => head inputs.*2
  end.

(** All feature schemas of the inputs, in input order. *)
Definition all_features (nodes : list Node) : list FeatureSchema :=
  nodes ≫= fun n => features (schema n).

(** What one turn of the loop leaves in the local variables. *)
Definition after_body (l : Locals) (key : string) (input : Node) : Locals :=
  {| self := {| op_oid := op_oid (self l); definition := definition (self l);
                inputs := inputs (self l) ++ [(key, input)];
                outputs := outputs (self l) |};
     output_features := output_features l ++ feature_nodes input;
     output_feature_schemas := output_feature_schemas l ++ features (schema input);
     feature_names := list_to_set (feature_names_of input) ∪ feature_names l;
     first_sampling_node := Some (default input (first_sampling_node l)) |}.

(** The inputs on which the loop runs to its end: slot names that are
    declared and not bound twice, feature names that do not repeat, and
    the sampling of the first input everywhere. *)
Definition loop_legal (inputs : list (string * Node)) (l : Locals) : Prop :=
  NoDup inputs.*1 ∧
  (∀ k, k ∈ inputs.*1 →
        k ∈ (def_inputs (definition (self l))).*1 ∧ k ∉ (Base.inputs (self l)).*1) ∧
  NoDup (name <$> all_features inputs.*2) ∧
  (∀ x, x ∈ name <$> all_features inputs.*2 → x ∉ feature_names l) ∧
  (∀ first x, first_of l inputs = Some first → x ∈ inputs.*2 → same_sampling x first).

(** The local variables when the loop has run to its end. *)
Definition after_loop (l : Locals) (inputs : list (string * Node)) : Locals :=
  {| self := {| op_oid := op_oid (self l); definition := definition (self l);
                Base.inputs := Base.inputs (self l) ++ inputs;
                outputs := outputs (self l) |};
     output_features := output_features l ++ (inputs.*2 ≫= feature_nodes);
     output_feature_schemas := output_feature_schemas l ++ all_features inputs.*2;
     feature_names := list_to_set (name <$> all_features inputs.*2) ∪ feature_names l;
     first_sampling_node := first_of l inputs |}.

(** The local variables before the first turn of the loop. *)
Definition initial (heap : Heap) : Locals :=
  {| self := {| op_oid := heap; definition := build_op_definition;
                inputs := []; outputs := [] |};
     output_features := []; output_feature_schemas := [];
     feature_names := ∅; first_sampling_node := None |}.

(** The node that a glue of [inputs], the first of which is [first], adds
    to the graph when the allocation counter is [heap]. *)
Definition glue_output (inputs : list Node) (first : Node) (heap : Heap) : Node :=
  {| node_oid := S heap;
     schema := {| features := all_features inputs;
                  indexes := indexes (schema first);
                  is_unix_timestamp := is_unix_timestamp (schema first) |};
     feature_nodes := inputs ≫= feature_nodes;
     sampling_node := sampling_node first;
     creator := Some heap |}.

(** Keyword arguments whose keys are distinct input slots of the glue
    definition. *)
Definition slots_valid (inputs : list (string * Node)) : Prop :=
  NoDup inputs.*1 ∧ ∀ k, k ∈ inputs.*1 → k ∈ (def_inputs build_op_definition).*1.

(** No feature name occurs twice among the features of the nodes. *)
Definition disjoint_feature_names (nodes : list Node) : Prop :=
  NoDup (name <$> all_features nodes).

(** Every node has the sampling of [first]. *)
Definition all_same_sampling (nodes : list Node) (first : Node) : Prop :=
  ∀ x, x ∈ nodes → same_sampling x first.

(** The slot keys on which [add_input] never fails during the loop. *)
Definition keys_free (inputs : list (string * Node)) (l : Locals) : Prop :=
  NoDup inputs.*1 ∧
  ∀ k, k ∈ inputs.*1 →
       k ∈ (def_inputs (definition (self l))).*1 ∧ k ∉ (Base.inputs (self l)).*1.

(** *** Inputs of the examples *)

(** Thirty nodes on one sampling with thirty different feature names. *)
Definition thirty_nodes : list Node :=
  (fun i => input_node i [pretty i] S0) <$> seq 0 30.

(** Nodes with one feature each, on the sampling [S0] or [S1]. *)
Definition node_a : Node := input_node 0 ["a"] S0.
Definition node_a' : Node := input_node 1 ["a"] S1.
Definition node_b' : Node := input_node 1 ["b"] S1.
Definition node_a2 : Node := input_node 2 ["a"] S0.

End Glue.

(** ** [temporian/core/operators/unary.py] *)

Module Unary.
Import Base.

(** The sampling of the data model of [unary.py]: an object with an
    identity, the names of its index and the operator that created it. *)
Record Sampling : Type := {
  sampling_oid : nat;
  index : list string;
  sampling_creator : option nat
}.

(** [temporian.core.data.feature.Feature]. *)
Module Feature.
Record t : Type := {
  name : string;
  dtype : DType;
  sampling : Sampling;
  creator : option nat
}.
End Feature.

(** [temporian.core.data.node.Node]. *)
Module Node.
Record t : Type := {
  features : list Feature.t;
  sampling : Sampling;
  creator : option nat
}.
End Node.

(** [a is b] on samplings. *)
Definition same_object (a b : Sampling) : Prop := sampling_oid a = sampling_oid b.

(** What the caller may pass as [input]: a node, or an object of another
    type, given by the name of its type. *)
Inductive PyObject : Type :=
| PyNode (node : Node.t)
| PyOther (type_name : string).

(** The abstract members of [BaseUnaryOperator]. *)
Record UnaryOperator : Type := {
  op_key_definition : string;
  allowed_dtypes : list DType;
  get_output_dtype : DType → DType
}.

Definition InvertOperator : UnaryOperator :=
  {| op_key_definition := "INVERT";
     allowed_dtypes := [BOOLEAN];
     get_output_dtype := fun _ => BOOLEAN |}.

Definition IsNanOperator : UnaryOperator :=
  {| op_key_definition := "IS_NAN";
     allowed_dtypes := [BOOLEAN; FLOAT32; FLOAT64; INT32; INT64];
     get_output_dtype := fun _ => BOOLEAN |}.

Definition NotNanOperator : UnaryOperator :=
  {| op_key_definition := "NOT_NAN";
     allowed_dtypes := [BOOLEAN; FLOAT32; FLOAT64; INT32; INT64];
     get_output_dtype := fun _ => BOOLEAN |}.

Definition AbsOperator : UnaryOperator :=
  {| op_key_definition := "ABS";
     allowed_dtypes := [FLOAT32; FLOAT64; INT32; INT64];
     get_output_dtype := fun feature_dtype => feature_dtype |}.

Definition LogOperator : UnaryOperator :=
  {| op_key_definition := "LOG";
     allowed_dtypes := [FLOAT32; FLOAT64];
     get_output_dtype := fun feature_dtype => feature_dtype |}.

(** The operators that [unary.py] registers. *)
Definition registered : list UnaryOperator :=
  [InvertOperator; IsNanOperator; NotNanOperator; AbsOperator; LogOperator].

(** [BaseUnaryOperator.build_op_definition]. *)
Definition build_op_definition (cls : UnaryOperator) : OperatorDef :=
  {| key := op_key_definition cls;
     def_inputs := [("input", false)];
     def_outputs := ["output"] |}.

(** The loop [for feature in input.features] that checks the dtypes. *)
Fixpoint check_dtypes (cls : UnaryOperator) (features : list Feature.t) : Result unit :=
  match features with
  | [] => Ok ()
  | feature :: rest =>
      if decide (Feature.dtype feature ∈ allowed_dtypes cls) then check_dtypes cls rest
      else Raise (ValueError (DTypes_supported (allowed_dtypes cls) (Feature.name feature)
                                               (Feature.dtype feature)))
  end.

(** [BaseUnaryOperator.__init__]. *)
Definition BaseUnaryOperator (cls : UnaryOperator) (input : PyObject) (heap : Heap)
    : Result (Operator Node.t * Heap) :=
  let '(self, heap) := Operator__init__ (build_op_definition cls) heap in
  match input with
  | PyOther type_name => Raise (TypeError (Input_must_be_Node type_name))
  | PyNode input =>
      _ ← check_dtypes cls (Node.features input);
      self' ← add_input self "input" input;
      let output_features :=
        (fun feature =>
           {| Feature.name := Feature.name feature;
              Feature.dtype := get_output_dtype cls (Feature.dtype feature);
              Feature.sampling := Node.sampling input;
              Feature.creator := Some (op_oid self) |}) <$> Node.features input in
      self'' ← add_output self' "output"
                 {| Node.features := output_features;
                    Node.sampling := Node.sampling input;
                    Node.creator := Some (op_oid self) |};
      check self'' ≫= fun _ => Ok (self'', heap)
  end.

(** The body shared by the five public functions:
    [Operator(input=input).outputs["output"]]. *)
Definition output_of (cls : UnaryOperator) (input : PyObject) (heap : Heap)
    : Result (Node.t * Heap) :=
  '(op, heap) ← BaseUnaryOperator cls input heap;
  node ← get_output op "output";
  Ok (node, heap).

Definition invert : PyObject → Heap → Result (Node.t * Heap) := output_of InvertOperator.
Definition isnan : PyObject → Heap → Result (Node.t * Heap) := output_of IsNanOperator.
Definition notnan : PyObject → Heap → Result (Node.t * Heap) := output_of NotNanOperator.
Definition abs : PyObject → Heap → Result (Node.t * Heap) := output_of AbsOperator.
Definition log : PyObject → Heap → Result (Node.t * Heap) := output_of LogOperator.

(** The node a unary operator returns for [input] when the allocation
    counter is [heap]. *)
Definition unary_output (cls : UnaryOperator) (input : Node.t) (heap : Heap) : Node.t :=
  {| Node.features :=
       (fun feature =>
          {| Feature.name := Feature.name feature;
             Feature.dtype := get_output_dtype cls (Feature.dtype feature);
             Feature.sampling := Node.sampling input;
             Feature.creator := Some heap |}) <$> Node.features input;
     Node.sampling := Node.sampling input;
     Node.creator := Some heap |}.

(** *** Examples *)

Definition sampling_0 : Sampling :=
  {| sampling_oid := 0; index := ["x"]; sampling_creator := None |}.

(** A graph input on [sampling_0] with the given features. *)
Definition input_node (features : list (string * DType)) : Node.t :=
  {| Node.features :=
       (fun f : string * DType =>
          {| Feature.name := f.1; Feature.dtype := f.2;
             Feature.sampling := sampling_0; Feature.creator := None |}) <$> features;
     Node.sampling := sampling_0;
     Node.creator := None |}.

End Unary.

(** ** [temporian/core/operators/calendar/minute.py] *)

Module Calendar.
Import Base Data.

(** The abstract members of [BaseCalendarOperator] that
    [CalendarMinuteOperator] overrides. *)
Record CalendarOperator : Type := {
  operator_def_key : string;
  output_feature_name : string
}.

Definition CalendarMinuteOperator : CalendarOperator :=
  {| operator_def_key := "CALENDAR_MINUTE";
     output_feature_name := "calendar_minute" |}.

(** Modelled from the spec: the operator definition of
    [BaseCalendarOperator], a class that is not among the source files:
    one input slot, used only for its sampling, and one output slot. *)
Definition build_op_definition (cls : CalendarOperator) : OperatorDef :=
  {| key := operator_def_key cls;
     def_inputs := [("sampling", false)];
     def_outputs := ["output"] |}.

(** Modelled from the spec: [BaseCalendarOperator.__init__], of the same
    missing class.  It requires the unix-timestamp flag of the input,
    failing with a [PreconditionError] otherwise, and gives the output
    one new feature, named by the subclass, of the fixed integer dtype
    (int32 in the docstring of [calendar_minute]), on the sampling of the
    input; the features of the input are not looked at. *)
Definition BaseCalendarOperator (cls : CalendarOperator) (sampling : Node) (heap : Heap)
    : Result (Operator Node * Heap) :=
  let '(self, heap) := Operator__init__ (build_op_definition cls) heap in
  if is_unix_timestamp (schema sampling) then
    self' ← add_input self "sampling" sampling;
    let feature := {| feature_oid := heap; feature_creator := Some (op_oid self) |} in
    let '(node, heap) :=
      create_node_with_new_reference
        {| features := [{| name := output_feature_name cls; dtype := INT32 |}];
           indexes := indexes (schema sampling);
           is_unix_timestamp := is_unix_timestamp (schema sampling) |}
        (sampling_node sampling) [feature] (Some (op_oid self)) (S heap) in
    self'' ← add_output self' "output" node;
    check self'' ≫= fun _ => Ok (self'', heap)
  else Raise PreconditionError.

(** The public function [calendar_minute], called on a node. *)
Definition calendar_minute (sampling : Node) (heap : Heap) : Result (Node * Heap) :=
  '(op, heap) ← BaseCalendarOperator CalendarMinuteOperator sampling heap;
  node ← get_output op "output";
  Ok (node, heap).

(** Modelled from the spec: the kernel of the minute operator, of the
    numeric layer that is not among the source files: the minute of the
    hour of a unix timestamp given in whole seconds. *)
Definition minute_of (timestamp : Z) : Z := ((timestamp / 60) mod 60)%Z.

Definition calendar_minute_values (timestamps : list Z) : list Z :=
  minute_of <$> timestamps.

(** *** Examples *)

(** 2020-01-01 18:30 and 23:59 UTC, in seconds since the epoch. *)
Definition random_hours : list Z := [1577903400; 1577923140]%Z.

(** A graph input with one feature whose timestamps are or are not unix times. *)
Definition input_node (unix : bool) : Node :=
  {| node_oid := 0;
     schema := {| features := [{| name := "f"; dtype := FLOAT64 |}];
                  indexes := [];
                  is_unix_timestamp := unix |};
     feature_nodes := [{| feature_oid := 1; feature_creator := None |}];
     sampling_node := {| Data.sampling_oid := 2; Data.sampling_creator := None |};
     creator := None |}.

End Calendar.

(** ** Properties *)

(** *** Results and the operator base class *)

Module BaseFacts.
Import Base.

Lemma bind_Ok {A B} (r : Result A) (k : A → Result B) (b : B) :
  r ≫= k = Ok b ↔ ∃ a, r = Ok a ∧ k a = Ok b.
Proof.
  destruct r as [a|e]; simpl; split.
  - eauto.
  - by intros (a' & [= <-] & ?).
  - done.
  - by intros (? & ? & ?).
Qed.

Lemma add_input_Ok {N} (op op' : Operator N) k (n : N) :
  add_input op k n = Ok op' ↔
  k ∈ (def_inputs (definition op)).*1 ∧ (k ∉ (inputs op).*1) ∧
  op' = {| op_oid := op_oid op; definition := definition op;
           inputs := inputs op ++ [(k, n)]; outputs := outputs op |}.
Proof.
  unfold add_input. repeat case_decide; naive_solver.
Qed.

Lemma find_None {A} (f : A → bool) (l : list A) :
  List.find f l = None ↔ ∀ x, x ∈ l → f x = false.
Proof.
  induction l as [|a l IH]; simpl.
  - split; [intros _ x Hx; inversion Hx | done].
  - destruct (f a) eqn:Ha.
    + split; [done|]. intros H. rewrite H in Ha; [done | left].
    + rewrite IH. setoid_rewrite elem_of_cons. naive_solver.
Qed.

Lemma check_Ok {N} (op : Operator N) r :
  check op = Ok r ↔ missing_input op = None ∧ missing_output op = None.
Proof.
  unfold check. destruct r. destruct (missing_input op), (missing_output op); naive_solver.
Qed.

End BaseFacts.

(** *** Glue *)

Module GlueFacts.
Import Base Data Glue BaseFacts.

Lemma add_feature_names_Ok fs (names names' : gset string) :
  add_feature_names fs names = Ok names' ↔
  NoDup (name <$> fs) ∧ (∀ x, x ∈ name <$> fs → x ∉ names) ∧
  names' = list_to_set (name <$> fs) ∪ names.
Proof.
  revert names. induction fs as [|f fs IH]; intros names; simpl.
  - split.
    + intros [= <-]. split_and!; [constructor | set_solver | set_solver].
    + intros (_ & _ & ->). f_equal. set_solver.
  - destruct (decide (name f ∈ names)) as [Hin|Hin].
    + split; [done|]. intros (_ & Hd & _). exfalso. apply (Hd (name f)); set_solver.
    + rewrite IH, NoDup_cons. split.
      * intros (Hnd & Hd & ->). split_and!; [set_solver | done | set_solver | set_solver].
      * intros ((Hn & Hnd) & Hd & ->). split_and!; [done | set_solver | set_solver].
Qed.

(** The first repeated name stops the inner loop. *)
Lemma add_feature_names_Raise pre f post (names : gset string) :
  NoDup (name <$> pre) → (∀ x, x ∈ name <$> pre → x ∉ names) →
  name f ∈ names ∨ name f ∈ name <$> pre →
  add_feature_names (pre ++ f :: post) names
  = Raise (ValueError (Feature_defined_in_multiple_inputs (name f))).
Proof.
  revert names. induction pre as [|g pre IH]; intros names Hnd Hd Hin; simpl.
  - destruct Hin as [Hin|Hin]; [|set_solver]. by rewrite decide_True.
  - apply NoDup_cons in Hnd as [Hg Hnd].
    rewrite decide_False by set_solver.
    apply IH; [done | set_solver | set_solver].
Qed.

(** The inner loop either returns or raises the duplicate-feature error. *)
Lemma add_feature_names_Raise_inv fs (names : gset string) e :
  add_feature_names fs names = Raise e →
  ∃ f, f ∈ fs ∧ e = ValueError (Feature_defined_in_multiple_inputs (name f)).
Proof.
  revert names. induction fs as [|f fs IH]; intros names; simpl; [done|].
  destruct (decide (name f ∈ names)).
  - intros [= <-]. exists f. split; [left | done].
  - intros (g & ? & ?)%IH. exists g. split; [by right | done].
Qed.

Lemma check_same_sampling_Ok x y r : check_same_sampling x y = Ok r ↔ same_sampling x y.
Proof. unfold check_same_sampling. destruct r. case_decide; naive_solver. Qed.

Lemma loop_body_Ok l key input l' :
  loop_body l key input = Ok l' ↔
  key ∈ (def_inputs (definition (self l))).*1 ∧ (key ∉ (inputs (self l)).*1) ∧
  NoDup (feature_names_of input) ∧
  (∀ x, x ∈ feature_names_of input → x ∉ feature_names l) ∧
  (∀ first, first_sampling_node l = Some first → same_sampling input first) ∧
  l' = after_body l key input.
Proof.
  unfold loop_body, after_body, feature_names_of.
  rewrite bind_Ok. setoid_rewrite bind_Ok. setoid_rewrite bind_Ok.
  setoid_rewrite add_input_Ok. setoid_rewrite add_feature_names_Ok.
  split.
  - intros (op' & (? & ? & ->) & names & (? & ? & ->) & first & Hfirst & [= <-]).
    split_and!; try done.
    + intros f Hf. rewrite Hf in Hfirst. apply bind_Ok in Hfirst as (r & Hs & _).
      by apply check_same_sampling_Ok in Hs.
    + destruct (first_sampling_node l) as [f|]; simpl in *.
      * apply bind_Ok in Hfirst as (r & _ & [= <-]). done.
      * by injection Hfirst as <-.
  - intros (? & ? & ? & ? & Hs & ->).
    eexists; split; [done|]. eexists; split; [done|].
    exists (default input (first_sampling_node l)). split; [|done].
    destruct (first_sampling_node l) as [f|]; simpl; [|done].
    apply bind_Ok. exists (). split; [|done]. apply check_same_sampling_Ok; auto.
Qed.

Lemma after_loop_nil l : after_loop l [] = l.
Proof.
  destruct l as [[] ? ? ? ?]. unfold after_loop, first_of, all_features; simpl.
  rewrite !app_nil_r. f_equal; [set_solver | by case_match].
Qed.

Lemma after_loop_cons l key input rest :
  after_loop (after_body l key input) rest = after_loop l ((key, input) :: rest).
Proof.
  unfold after_loop, after_body, first_of, all_features, feature_names_of; simpl.
  rewrite <- !app_assoc, fmap_app. f_equal.
  - rewrite list_to_set_app_L. set_solver.
  - by destruct (first_sampling_node l).
Qed.

Lemma loop_legal_cons l key input rest :
  loop_legal ((key, input) :: rest) l ↔
  (key ∈ (def_inputs (definition (self l))).*1 ∧ (key ∉ (Base.inputs (self l)).*1) ∧
   NoDup (feature_names_of input) ∧
   (∀ x, x ∈ feature_names_of input → x ∉ feature_names l) ∧
   (∀ first, first_sampling_node l = Some first → same_sampling input first)) ∧
  loop_legal rest (after_body l key input).
Proof.
  unfold loop_legal, after_body, first_of, all_features, feature_names_of; simpl.
  rewrite NoDup_cons, fmap_app, NoDup_app.
  setoid_rewrite elem_of_cons. setoid_rewrite elem_of_app.
  setoid_rewrite elem_of_union. setoid_rewrite elem_of_list_to_set.
  setoid_rewrite fmap_app. setoid_rewrite elem_of_app.
  setoid_rewrite list_elem_of_singleton.
  destruct (first_sampling_node l) as [f|]; simpl; unfold same_sampling; naive_solver.
Qed.

Lemma loop_Ok inputs l l' :
  loop inputs l = Ok l' ↔ loop_legal inputs l ∧ l' = after_loop l inputs.
Proof.
  revert l. induction inputs as [|[key input] rest IH]; intros l.
  - rewrite after_loop_nil. simpl. unfold loop_legal; simpl.
    split; [intros [= <-]|intros [_ ->]]; [|done].
    split_and!; [constructor | set_solver | constructor | set_solver | set_solver | done].
  - simpl. rewrite bind_Ok, loop_legal_cons, <- after_loop_cons.
    setoid_rewrite loop_body_Ok. setoid_rewrite IH. naive_solver.
Qed.

Lemma loop_app a b l : loop (a ++ b) l = loop a l ≫= loop b.
Proof.
  revert l. induction a as [|[key input] a IH]; intros l; simpl; [done|].
  destruct (loop_body l key input); simpl; auto.
Qed.

(** The two required slots of the glue definition are [input_0] and [input_1]. *)
Lemma missing_input_glue (op : Operator Node) :
  definition op = build_op_definition →
  missing_input op = None ↔
  input_key 0 ∈ (inputs op).*1 ∧ input_key 1 ∈ (inputs op).*1.
Proof.
  intros Hd. unfold missing_input. rewrite Hd.
  unfold build_op_definition. cbn [def_inputs].
  assert (Hn : 2 ≤ MAX_NUM_ARGUMENTS) by (unfold MAX_NUM_ARGUMENTS; lia).
  revert Hn. generalize MAX_NUM_ARGUMENTS as n. intros n Hn.
  rewrite fmap_None, find_None. split.
  - intros H. split.
    + specialize (H (input_key 0, bool_decide (2 ≤ 0))). simpl in H.
      rewrite negb_false_iff, bool_decide_eq_true in H. apply H.
      apply list_elem_of_fmap. exists 0. split; [done|].
      apply elem_of_seq. lia.
    + specialize (H (input_key 1, bool_decide (2 ≤ 1))). simpl in H.
      rewrite negb_false_iff, bool_decide_eq_true in H. apply H.
      apply list_elem_of_fmap. exists 1. split; [done|].
      apply elem_of_seq. lia.
  - intros [H0 H1] x (idx & -> & Hidx)%list_elem_of_fmap. simpl.
    destruct idx as [|[|idx]]; simpl.
    + by rewrite bool_decide_eq_true_2.
    + by rewrite bool_decide_eq_true_2.
    + done.
Qed.

Lemma GlueOperator_Ok inputs heap op heap' :
  GlueOperator inputs heap = Ok (op, heap') ↔
  2 ≤ length inputs < MAX_NUM_ARGUMENTS ∧ loop_legal inputs (initial heap) ∧
  input_key 0 ∈ inputs.*1 ∧ input_key 1 ∈ inputs.*1 ∧
  ∃ first, head inputs.*2 = Some first ∧ heap' = S (S heap) ∧
    op = {| op_oid := heap; definition := build_op_definition; inputs := inputs;
            outputs := [("output", glue_output inputs.*2 first heap)] |}.
Proof.
  unfold GlueOperator; simpl. fold (initial heap).
  case_decide; [split; [done | lia]|].
  case_decide; [split; [done | lia]|].
  rewrite bind_Ok. setoid_rewrite loop_Ok. split.
  - intros (l & [Hlegal ->] & Hrest). simpl in Hrest.
    change (first_of (initial heap) inputs) with (head inputs.*2) in Hrest.
    destruct (head inputs.*2) as [first|] eqn:Hfirst; [|done].
    apply bind_Ok in Hrest as (r & Hcheck & [= <- <-]).
    apply check_Ok in Hcheck as [Hin _].
    apply missing_input_glue in Hin as [? ?]; [|done]. simpl in *.
    split_and!; [lia | lia | done | done | done |].
    exists first. done.
  - intros (_ & Hlegal & Hk0 & Hk1 & first & Hfirst & -> & ->).
    eexists; split; [done|]. simpl.
    change (first_of (initial heap) inputs) with (head inputs.*2).
    rewrite Hfirst. unfold glue_output. rewrite (proj2 (check_Ok _ ())); [done|].
    split; [|done]. by apply missing_input_glue.
Qed.

Lemma GlueOperator_too_few inputs heap :
  length inputs < 2 → GlueOperator inputs heap = Raise (ValueError At_least_two_arguments).
Proof. intros H. unfold GlueOperator; simpl. by rewrite decide_True. Qed.

Lemma GlueOperator_too_many inputs heap :
  MAX_NUM_ARGUMENTS ≤ length inputs →
  GlueOperator inputs heap = Raise (ValueError (Too_many_arguments MAX_NUM_ARGUMENTS)).
Proof.
  intros H. unfold GlueOperator; simpl.
  rewrite decide_False by (unfold MAX_NUM_ARGUMENTS in H; lia). by rewrite decide_True.
Qed.

Lemma GlueOperator_loop inputs heap :
  2 ≤ length inputs < MAX_NUM_ARGUMENTS →
  GlueOperator inputs heap =
  l ← loop inputs (initial heap);
  match first_sampling_node l with
  | None => Raise AssertionError
  | Some first =>
      let '(node, heap') :=
        create_node_with_new_reference
          {| features := output_feature_schemas l;
             indexes := indexes (schema first);
             is_unix_timestamp := is_unix_timestamp (schema first) |}
          (sampling_node first) (output_features l) (Some heap) (S heap) in
      self' ← add_output (self l) "output" node;
      check self' ≫= fun _ => Ok (self', heap')
  end.
Proof.
  intros H. unfold GlueOperator; simpl.
  rewrite decide_False by lia. by rewrite decide_False by lia.
Qed.

Lemma loop_legal_initial inputs heap :
  loop_legal inputs (initial heap) ↔
  slots_valid inputs ∧ disjoint_feature_names inputs.*2 ∧
  ∀ first, head inputs.*2 = Some first → all_same_sampling inputs.*2 first.
Proof.
  unfold loop_legal, slots_valid, disjoint_feature_names, all_same_sampling, first_of.
  simpl. setoid_rewrite elem_of_nil. setoid_rewrite elem_of_empty. naive_solver.
Qed.

Lemma inputs_dict_keys nodes : (inputs_dict nodes).*1 = input_key <$> seq 0 (length nodes).
Proof. unfold inputs_dict. rewrite fmap_imap. apply (imap_seq_0 nodes input_key). Qed.

Lemma inputs_dict_nodes nodes : (inputs_dict nodes).*2 = nodes.
Proof.
  unfold inputs_dict. rewrite fmap_imap.
  etrans; [apply (imap_const id nodes) | apply list_fmap_id].
Qed.

Lemma length_inputs_dict nodes : length (inputs_dict nodes) = length nodes.
Proof. unfold inputs_dict. apply length_imap. Qed.

#[local] Instance input_key_inj : Inj (=) (=) input_key.
Proof. intros a b H. unfold input_key in H. by apply String.app_inj, pretty_nat_inj in H. Qed.

Lemma inputs_dict_slots_valid nodes :
  length nodes ≤ MAX_NUM_ARGUMENTS → slots_valid (inputs_dict nodes).
Proof.
  intros H. unfold slots_valid. rewrite inputs_dict_keys. split.
  - apply NoDup_fmap_2; [apply _ | apply NoDup_seq].
  - intros k (idx & -> & Hidx%elem_of_seq)%list_elem_of_fmap.
    unfold build_op_definition. cbn [def_inputs]. rewrite <- list_fmap_compose.
    apply list_elem_of_fmap. exists idx. split; [done|]. apply elem_of_seq. lia.
Qed.

Lemma inputs_dict_required nodes :
  2 ≤ length nodes →
  input_key 0 ∈ (inputs_dict nodes).*1 ∧ input_key 1 ∈ (inputs_dict nodes).*1.
Proof.
  intros H. rewrite inputs_dict_keys.
  split; apply list_elem_of_fmap; eexists; (split; [done|]); apply elem_of_seq; lia.
Qed.

Lemma loop_body_sampling_Raise l key input first :
  key ∈ (def_inputs (definition (self l))).*1 → key ∉ (inputs (self l)).*1 →
  NoDup (feature_names_of input) →
  (∀ x, x ∈ feature_names_of input → x ∉ feature_names l) →
  first_sampling_node l = Some first → ¬ same_sampling input first →
  loop_body l key input = Raise SamplingMismatchError.
Proof.
  intros Hk Hb Hnd Hd Hf Hs. unfold loop_body.
  rewrite (proj2 (add_input_Ok _ _ _ _)) by done. simpl.
  rewrite (proj2 (add_feature_names_Ok _ _ _)) by done. simpl.
  rewrite Hf. unfold check_same_sampling. by rewrite decide_False.
Qed.

Lemma loop_body_duplicate_Raise l key input fpre f fpost :
  key ∈ (def_inputs (definition (self l))).*1 → key ∉ (inputs (self l)).*1 →
  features (schema input) = fpre ++ f :: fpost →
  NoDup (name <$> fpre) → (∀ x, x ∈ name <$> fpre → x ∉ feature_names l) →
  name f ∈ feature_names l ∨ name f ∈ name <$> fpre →
  loop_body l key input = Raise (ValueError (Feature_defined_in_multiple_inputs (name f))).
Proof.
  intros Hk Hb Hf Hnd Hd Hin. unfold loop_body.
  rewrite (proj2 (add_input_Ok _ _ _ _)) by done. simpl.
  rewrite Hf, add_feature_names_Raise by done. done.
Qed.

(** The loop on the inputs before the one that stops it. *)
Lemma loop_prefix pre heap :
  slots_valid pre → disjoint_feature_names pre.*2 →
  (∀ first, head pre.*2 = Some first → all_same_sampling pre.*2 first) →
  loop pre (initial heap) = Ok (after_loop (initial heap) pre).
Proof.
  intros Hs Hd Ha. apply loop_Ok. split; [|done].
  by apply loop_legal_initial.
Qed.

Lemma slots_valid_app_inv pre key (input : Node) :
  slots_valid (pre ++ [(key, input)]) →
  slots_valid pre ∧ key ∈ (def_inputs build_op_definition).*1 ∧ key ∉ pre.*1.
Proof.
  unfold slots_valid. rewrite fmap_app, NoDup_app. simpl.
  setoid_rewrite elem_of_app. setoid_rewrite list_elem_of_singleton.
  intros [(? & Hd & _) ?]. split_and!; [done | auto | auto |].
  intros Hk. by apply (Hd key).
Qed.

Lemma all_features_app a b : all_features (a ++ b) = all_features a ++ all_features b.
Proof. unfold all_features. apply bind_app. Qed.

Lemma all_features_singleton a : all_features [a] = features (schema a).
Proof. unfold all_features. simpl. apply app_nil_r. Qed.

Lemma glue_two_or_more nodes first heap :
  head nodes = Some first → 2 ≤ length nodes < MAX_NUM_ARGUMENTS →
  all_same_sampling nodes first → disjoint_feature_names nodes →
  GlueOperator (inputs_dict nodes) heap
  = Ok ({| op_oid := heap; definition := build_op_definition;
           inputs := inputs_dict nodes;
           outputs := [("output", glue_output nodes first heap)] |}, S (S heap)) ∧
  glue nodes heap = Ok (glue_output nodes first heap, S (S heap)).
Proof.
  intros Hh Hlen Hs Hd.
  assert (GlueOperator (inputs_dict nodes) heap
          = Ok ({| op_oid := heap; definition := build_op_definition;
                   inputs := inputs_dict nodes;
                   outputs := [("output", glue_output nodes first heap)] |},
                S (S heap))) as Hop.
  { apply GlueOperator_Ok. rewrite length_inputs_dict, inputs_dict_nodes.
    split_and!; [lia | lia | | apply inputs_dict_required; lia
                | apply inputs_dict_required; lia | by exists first].
    apply loop_legal_initial. rewrite inputs_dict_nodes.
    split_and!; [apply inputs_dict_slots_valid; lia | done |].
    intros first' ?. by simplify_eq. }
  split; [done|].
  destruct nodes as [|x [|y rest]]; simpl in Hlen; [lia | lia |].
  unfold glue. rewrite Hop. done.
Qed.

(** C8.  Thirty nodes that share one sampling and have thirty different
    feature names fill the thirty declared slots [input_0] .. [input_29]
    and pass every turn of the loop, but the arity guard
    [len(inputs) >= MAX_NUM_ARGUMENTS] rejects them, with a message that
    speaks of more than thirty arguments. *)
Theorem GlueOperator_rejects_thirty_inputs :
  length thirty_nodes = MAX_NUM_ARGUMENTS ∧
  (inputs_dict thirty_nodes).*1 = (def_inputs build_op_definition).*1 ∧
  loop_legal (inputs_dict thirty_nodes) (initial 0) ∧
  GlueOperator (inputs_dict thirty_nodes) 0
  = Raise (ValueError (Too_many_arguments 30)) ∧
  glue thirty_nodes 0 = Raise (ValueError (Too_many_arguments 30)) ∧
  format (Too_many_arguments 30)
  = [Lit "Too many (>"; FmtInt 30; Lit ") arguments provided"].
Proof.
  split_and!; try (vm_compute; reflexivity).
  assert (∃ l, loop (inputs_dict thirty_nodes) (initial 0) = Ok l) as [l Hl].
  { eexists. vm_compute. reflexivity. }
  by apply loop_Ok in Hl as [? _].
Qed.

(** C10.  The public function [glue] called with exactly one node returns
    that very node and leaves the allocation counter where it was: no
    operator and no node is created and nothing is validated, whereas the
    constructor [GlueOperator] refuses a single input under any key. *)
Theorem glue_single_input (a : Node) (heap : Heap) :
  glue [a] heap = Ok (a, heap) ∧
  ∀ key, GlueOperator [(key, a)] heap = Raise (ValueError At_least_two_arguments).
Proof. split; [done|]. intros key. by apply GlueOperator_too_few; simpl; lia. Qed.

(** Success of the constructor means that the inputs were legal. *)
Lemma GlueOperator_Ok_legal inputs heap op heap' :
  GlueOperator inputs heap = Ok (op, heap') →
  disjoint_feature_names inputs.*2 ∧
  ∀ first, head inputs.*2 = Some first → all_same_sampling inputs.*2 first.
Proof.
  intros (_ & Hl & _)%GlueOperator_Ok. apply loop_legal_initial in Hl. tauto.
Qed.

(** C4.  A glue of at least one and fewer than [MAX_NUM_ARGUMENTS] nodes
    that pairwise have the same sampling and among whose features no name
    occurs twice returns a node whose schema lists the features of the
    inputs in input order; its sampling node is the one of the first
    input, and so are the indexes and the unix-timestamp flag of its
    schema.  With two or more inputs that node is the only output of the
    operator that was built. *)
Theorem glue_output_schema (nodes : list Node) (first : Node) (heap : Heap) :
  head nodes = Some first → length nodes < MAX_NUM_ARGUMENTS →
  (∀ x y, x ∈ nodes → y ∈ nodes → same_sampling x y) →
  disjoint_feature_names nodes →
  ∃ out heap',
    glue nodes heap = Ok (out, heap') ∧
    features (schema out) = all_features nodes ∧
    feature_names_of out = nodes ≫= feature_names_of ∧
    sampling_node out = sampling_node first ∧
    indexes (schema out) = indexes (schema first) ∧
    is_unix_timestamp (schema out) = is_unix_timestamp (schema first) ∧
    (2 ≤ length nodes →
     ∃ op, GlueOperator (inputs_dict nodes) heap = Ok (op, heap') ∧
           outputs op = [("output", out)]).
Proof.
  intros Hh Hlen Hs Hd.
  assert (first ∈ nodes) as Hfirst.
  { destruct nodes; simplify_eq/=. left. }
  assert (feature_names_of (glue_output nodes first heap) = nodes ≫= feature_names_of) as Hn.
  { unfold feature_names_of, all_features; simpl. clear.
    induction nodes as [|n nodes IH]; simpl; [done|]. by rewrite fmap_app, IH. }
  destruct (decide (length nodes = 1)) as [H1|H1].
  - destruct nodes as [|x [|y rest]]; simplify_eq/=.
    exists first, heap. rewrite !app_nil_r.
    split_and!; try done. lia.
  - destruct (glue_two_or_more nodes first heap) as [Hop Hg]; try done.
    { destruct nodes; simplify_eq/=. lia. }
    { intros x Hx. by apply Hs. }
    exists (glue_output nodes first heap), (S (S heap)).
    split_and!; try done. intros _. eexists. split; [exact Hop | done].
Qed.

Lemma glue_output_schema_witness :
  ∃ out heap',
    glue [input_node 2 ["a"; "b"] S0; input_node 3 ["c"; "d"] S0] 10 = Ok (out, heap') ∧
    feature_names_of out = ["a"; "b"; "c"; "d"] ∧
    sampling_node out = S0.
Proof.
  destruct (glue_output_schema
              [input_node 2 ["a"; "b"] S0; input_node 3 ["c"; "d"] S0]
              (input_node 2 ["a"; "b"] S0) 10)
    as (out & heap' & Hg & _ & Hn & Hs & _).
  - reflexivity.
  - simpl. unfold MAX_NUM_ARGUMENTS. lia.
  - intros x y Hx Hy. unfold same_sampling.
    rewrite !elem_of_cons, elem_of_nil in Hx, Hy.
    by destruct Hx as [->|[->|[]]], Hy as [->|[->|[]]].
  - unfold disjoint_feature_names. simpl. by apply (bool_decide_unpack _).
  - exists out, heap'. split_and!; done.
Defined.

(** C6.  For nodes [a], [b], [c] that pairwise have the same sampling and
    among whose features no name occurs twice, [glue(glue(a, b), c)] and
    [glue(a, glue(b, c))] both return a node, and the two nodes have the
    same schema (the features of [a], [b], [c] in that order, the indexes
    and unix-timestamp flag of [a]) and the same sampling node. *)
Theorem glue_associative (a b c : Node) (heap heap' : Heap) :
  same_sampling a b → same_sampling b c → same_sampling a c →
  disjoint_feature_names [a; b; c] →
  ∃ ab abc bc abc' h1 h2 h3 h4,
    glue [a; b] heap = Ok (ab, h1) ∧ glue [ab; c] h1 = Ok (abc, h2) ∧
    glue [b; c] heap' = Ok (bc, h3) ∧ glue [a; bc] h3 = Ok (abc', h4) ∧
    schema abc = schema abc' ∧
    features (schema abc) = all_features [a; b; c] ∧
    feature_names_of abc = feature_names_of abc' ∧
    sampling_node abc = sampling_node abc'.
Proof.
  unfold same_sampling, disjoint_feature_names, all_features. simpl.
  rewrite app_nil_r. intros Hab Hbc Hac Hd.
  rewrite !fmap_app in Hd.
  apply NoDup_app in Hd as (Ha & Hd1 & Hd).
  apply NoDup_app in Hd as (Hb & Hd2 & Hc).
  destruct (glue_two_or_more [a; b] a heap) as [_ H1]; try done.
  { simpl. unfold MAX_NUM_ARGUMENTS. lia. }
  { intros x. rewrite !elem_of_cons, elem_of_nil. unfold same_sampling. naive_solver. }
  { unfold disjoint_feature_names, all_features. simpl.
    rewrite app_nil_r, fmap_app. apply NoDup_app. set_solver. }
  destruct (glue_two_or_more [glue_output [a; b] a heap; c]
              (glue_output [a; b] a heap) (S (S heap))) as [_ H2]; try done.
  { simpl. unfold MAX_NUM_ARGUMENTS. lia. }
  { intros x. rewrite !elem_of_cons, elem_of_nil. unfold same_sampling. naive_solver. }
  { unfold disjoint_feature_names, all_features. simpl.
    rewrite !app_nil_r, !fmap_app. rewrite !NoDup_app. set_solver. }
  destruct (glue_two_or_more [b; c] b heap') as [_ H3]; try done.
  { simpl. unfold MAX_NUM_ARGUMENTS. lia. }
  { intros x. rewrite !elem_of_cons, elem_of_nil. unfold same_sampling. naive_solver. }
  { unfold disjoint_feature_names, all_features. simpl.
    rewrite app_nil_r, fmap_app. apply NoDup_app. set_solver. }
  destruct (glue_two_or_more [a; glue_output [b; c] b heap'] a (S (S heap')))
    as [_ H4]; try done.
  { simpl. unfold MAX_NUM_ARGUMENTS. lia. }
  { intros x. rewrite !elem_of_cons, elem_of_nil. unfold same_sampling. simpl. naive_solver. }
  { unfold disjoint_feature_names, all_features. simpl.
    rewrite !app_nil_r, !fmap_app. rewrite !NoDup_app. set_solver. }
  do 8 eexists. split_and!; [exact H1 | exact H2 | exact H3 | exact H4 | | | |].
  - unfold glue_output, all_features. simpl. by rewrite !app_nil_r, <- app_assoc.
  - unfold glue_output, all_features. simpl. by rewrite !app_nil_r, <- app_assoc.
  - unfold feature_names_of, glue_output, all_features. simpl.
    by rewrite !app_nil_r, <- app_assoc.
  - done.
Qed.

Lemma glue_associative_witness :
  ∃ abc abc' : Node,
    feature_names_of abc = ["a"; "b"; "c"] ∧ schema abc = schema abc'.
Proof.
  destruct (glue_associative (input_node 0 ["a"] S0) (input_node 1 ["b"] S0)
              (input_node 2 ["c"] S0) 3 7)
    as (ab & abc & bc & abc' & h1 & h2 & h3 & h4 & H1 & H2 & H3 & H4 & Hs & Hf & _).
  - reflexivity.
  - reflexivity.
  - reflexivity.
  - unfold disjoint_feature_names. simpl. by apply (bool_decide_unpack _).
  - exists abc, abc'. split; [|done]. unfold feature_names_of. by rewrite Hf.
Defined.

(** Why one turn of the loop raises. *)
Lemma loop_body_Raise_inv l key input e :
  loop_body l key input = Raise e →
  (∃ fault, e = GraphConstructionError (Base.key (definition (self l))) fault ∧
            ¬ (key ∈ (def_inputs (definition (self l))).*1 ∧ key ∉ (inputs (self l)).*1)) ∨
  (∃ f, f ∈ features (schema input) ∧
        e = ValueError (Feature_defined_in_multiple_inputs (name f))) ∨
  (e = SamplingMismatchError ∧
   ∃ first, first_sampling_node l = Some first ∧ ¬ same_sampling input first).
Proof.
  unfold loop_body, add_input.
  case_decide as Hk; [case_decide as Hb|]; simpl.
  - intros [= <-]. left. eexists. split; [done|]. tauto.
  - destruct (add_feature_names _ _) as [names|e'] eqn:Hn; simpl.
    + destruct (first_sampling_node l) as [first|]; simpl; [|done].
      unfold check_same_sampling. case_decide; simpl; [done|].
      intros [= <-]. right. right. split; [done|]. by exists first.
    + intros [= <-]. right. left. by apply add_feature_names_Raise_inv in Hn.
  - intros [= <-]. left. eexists. split; [done|]. tauto.
Qed.

Lemma keys_free_cons key input rest l :
  keys_free ((key, input) :: rest) l → keys_free rest (after_body l key input).
Proof.
  unfold keys_free, after_body. simpl. rewrite NoDup_cons.
  intros [[Hk Hnd] H]. split; [done|]. intros k Hin.
  destruct (H k) as [? ?]; [by right|]. split; [done|].
  rewrite fmap_app, elem_of_app. simpl. rewrite list_elem_of_singleton.
  intros [? | ->]; done.
Qed.

(** Why the loop raises. *)
Lemma loop_Raise_inv inputs l e :
  loop inputs l = Raise e →
  (∃ k fault, e = GraphConstructionError k fault ∧ ¬ keys_free inputs l) ∨
  (∃ x f, x ∈ inputs.*2 ∧ f ∈ features (schema x) ∧
          e = ValueError (Feature_defined_in_multiple_inputs (name f))) ∨
  (e = SamplingMismatchError ∧
   ∃ x first, x ∈ inputs.*2 ∧ first_of l inputs = Some first ∧ ¬ same_sampling x first).
Proof.
  revert l. induction inputs as [|[key input] rest IH]; intros l; simpl; [done|].
  destruct (loop_body l key input) as [l'|e'] eqn:Hb; simpl.
  - apply loop_body_Ok in Hb as (_ & _ & _ & _ & _ & ->).
    intros [(k & fault & He & Hk)|[(x & f & Hx & Hf & He)|(He & x & first & Hx & Hf & Hs)]]%IH; subst e.
    + left. exists k, fault. split; [done|]. intros Hfree. by apply Hk, keys_free_cons.
    + right. left. exists x, f. split_and!; [by right | done | done].
    + right. right. split; [done|]. exists x, first. split_and!; [by right | | done].
      unfold first_of, after_body in *. simpl in *. by destruct (first_sampling_node l).
  - intros [= <-].
    apply loop_body_Raise_inv in Hb
      as [(fault & He & Hk)|[(f & Hf & He)|(He & first & Hf & Hs)]]; subst e'.
    + left. do 2 eexists. split; [done|]. intros [Hnd Hfree]. apply Hk, Hfree. left.
    + right. left. exists input, f. split_and!; [left | done | done].
    + right. right. split; [done|]. exists input, first. split_and!; [left | | done].
      unfold first_of. by rewrite Hf.
Qed.

(** One turn of the loop raises the sampling mismatch exactly when the
    slot and the feature names of the input pass and its sampling is not
    the one of the first input. *)
Lemma loop_body_SamplingMismatch l key input :
  loop_body l key input = Raise SamplingMismatchError ↔
  key ∈ (def_inputs (definition (self l))).*1 ∧ (key ∉ (inputs (self l)).*1) ∧
  NoDup (feature_names_of input) ∧
  (∀ x, x ∈ feature_names_of input → x ∉ feature_names l) ∧
  ∃ first, first_sampling_node l = Some first ∧ ¬ same_sampling input first.
Proof.
  split.
  - intros Hb. assert (Hb' := Hb). unfold loop_body, add_input in Hb.
    case_decide as Hk; [case_decide as Hkb|]; simpl in Hb; [done| |done].
    destruct (add_feature_names _ _) as [names|e] eqn:Hn; simpl in Hb.
    + apply add_feature_names_Ok in Hn as (Hnd & Hd & _).
      split_and!; try done.
      apply loop_body_Raise_inv in Hb' as [(? & ? & _)|[(? & _ & ?)|[_ ?]]]; done.
    + by apply add_feature_names_Raise_inv in Hn as (f & _ & ->).
  - intros (? & ? & ? & ? & first & ? & ?). by apply loop_body_sampling_Raise with first.
Qed.

(** One turn of the loop on an input with a feature whose name was met
    before always raises, and the duplicate-feature error it may raise
    names that feature and tells that the slot passed. *)
Lemma loop_body_at_duplicate l key input fpre f fpost :
  features (schema input) = fpre ++ f :: fpost →
  NoDup (name <$> fpre) → (∀ x, x ∈ name <$> fpre → x ∉ feature_names l) →
  name f ∈ feature_names l ∨ name f ∈ name <$> fpre →
  ∃ e, loop_body l key input = Raise e ∧
       ∀ m, e = ValueError (Feature_defined_in_multiple_inputs m) →
            m = name f ∧ key ∈ (def_inputs (definition (self l))).*1 ∧
            key ∉ (inputs (self l)).*1.
Proof.
  intros Hf Hnd Hd Hin. unfold loop_body, add_input.
  case_decide as Hk; [case_decide as Hkb|]; simpl.
  - eexists. split; [done|]. by intros m.
  - rewrite Hf, add_feature_names_Raise by done. simpl.
    eexists. split; [done|]. by intros m [= <-].
  - eexists. split; [done|]. by intros m.
Qed.

(** The loop never raises the duplicate-feature error on inputs among
    whose features no name occurs twice and none was met before. *)
Lemma loop_no_duplicate inputs l m :
  NoDup (name <$> all_features inputs.*2) →
  (∀ x, x ∈ name <$> all_features inputs.*2 → x ∉ feature_names l) →
  loop inputs l ≠ Raise (ValueError (Feature_defined_in_multiple_inputs m)).
Proof.
  revert l. induction inputs as [|[key input] rest IH]; intros l Hnd Hd; simpl; [done|].
  change (all_features (((key, input) :: rest).*2))
    with (features (schema input) ++ all_features rest.*2) in Hnd, Hd.
  rewrite fmap_app in Hnd. apply NoDup_app in Hnd as (Hn1 & Hn12 & Hn2).
  assert (∀ x, x ∈ name <$> features (schema input) → x ∉ feature_names l) as Hd1.
  { intros x Hx. apply Hd. rewrite fmap_app, elem_of_app. by left. }
  destruct (loop_body l key input) as [l'|e] eqn:Hb; simpl.
  - apply loop_body_Ok in Hb as (_ & _ & _ & _ & _ & ->). apply IH; [done|].
    intros x Hx. unfold after_body, feature_names_of; simpl.
    rewrite elem_of_union, elem_of_list_to_set. intros [Hin|Hin].
    + by apply (Hn12 x).
    + apply (Hd x); [|done]. rewrite fmap_app, elem_of_app. by right.
  - intros [= ->]. unfold loop_body, add_input in Hb.
    case_decide; [case_decide|]; simpl in Hb; [done| |done].
    rewrite (proj2 (add_feature_names_Ok (features (schema input)) (feature_names l) _)
               (conj Hn1 (conj Hd1 eq_refl))) in Hb.
    simpl in Hb. destruct (first_sampling_node l); simpl in Hb; [|done].
    unfold check_same_sampling in Hb. by case_decide.
Qed.

Lemma slots_valid_snoc pre key (input : Node) :
  slots_valid pre → key ∈ (def_inputs build_op_definition).*1 → key ∉ pre.*1 →
  slots_valid (pre ++ [(key, input)]).
Proof.
  unfold slots_valid. rewrite fmap_app, NoDup_app. simpl.
  intros [Hnd Hd] Hk Hkp. split.
  - split_and!; [done | | apply NoDup_singleton].
    intros x Hx. rewrite list_elem_of_singleton. by intros ->.
  - intros k. rewrite elem_of_app, list_elem_of_singleton. intros [?| ->]; auto.
Qed.

(** When the too-many error is not raised, there are fewer than
    [MAX_NUM_ARGUMENTS] inputs. *)
Lemma GlueOperator_not_too_many inputs heap :
  GlueOperator inputs heap ≠ Raise (ValueError (Too_many_arguments MAX_NUM_ARGUMENTS)) →
  length inputs < MAX_NUM_ARGUMENTS.
Proof.
  intros H. destruct (decide (MAX_NUM_ARGUMENTS ≤ length inputs)) as [Hm|Hm]; [|lia].
  destruct H. by apply GlueOperator_too_many.
Qed.

(** C1, as stated, fails: the second of these two inputs has another
    sampling than the first, yet the error is the one for a feature name
    defined twice, because every turn of the loop looks at the feature
    names before it compares the samplings. *)
Lemma GlueOperator_mismatch_reported_as_duplicate :
  2 ≤ length (inputs_dict [node_a; node_a']) ∧
  ¬ same_sampling node_a' node_a ∧
  GlueOperator (inputs_dict [node_a; node_a']) 0
  = Raise (ValueError (Feature_defined_in_multiple_inputs "a")) ∧
  GlueOperator (inputs_dict [node_a; node_a']) 0 ≠ Raise SamplingMismatchError.
Proof.
  split_and!; [simpl; lia | by vm_compute | by vm_compute |].
  assert (GlueOperator (inputs_dict [node_a; node_a']) 0
          = Raise (ValueError (Feature_defined_in_multiple_inputs "a"))) as ->
    by (by vm_compute).
  discriminate.
Qed.

(** C1, amended.  If some input of a [GlueOperator] has a sampling that is
    not the very sampling object of the first input, the construction
    raises and no operator and no output node is returned.  The exception
    is [SamplingMismatchError] exactly when no earlier check of the
    constructor fails: the too-many-arguments error is not raised and, up
    to and including the first input whose sampling differs, the keys are
    distinct declared slots and no feature name occurs twice.  In every
    other case the construction raises another exception. *)
Theorem GlueOperator_sampling_mismatch
    (inputs : list (string * Node)) (heap : Heap) (first x : Node) :
  head inputs.*2 = Some first → x ∈ inputs.*2 → ¬ same_sampling x first →
  (∃ e, GlueOperator inputs heap = Raise e) ∧
  ∀ pre key y post,
    inputs = pre ++ (key, y) :: post →
    all_same_sampling pre.*2 first → ¬ same_sampling y first →
    (GlueOperator inputs heap = Raise SamplingMismatchError ↔
     GlueOperator inputs heap ≠ Raise (ValueError (Too_many_arguments MAX_NUM_ARGUMENTS)) ∧
     slots_valid (pre ++ [(key, y)]) ∧
     disjoint_feature_names (pre ++ [(key, y)]).*2).
Proof.
  intros Hh Hx Hne. split.
  - destruct (GlueOperator inputs heap) as [[op heap']|e] eqn:Hg; [|by exists e].
    apply GlueOperator_Ok_legal in Hg as [_ Hs]. destruct Hne. by apply Hs.
  - intros pre key y post -> Hpre Hy.
    assert (head pre.*2 = Some first) as Hhp.
    { destruct pre as [|[k0 p0] pre]; simpl in *; [|done].
      simplify_eq. by destruct Hy. }
    assert (2 ≤ length (pre ++ (key, y) :: post)) as Hlen2.
    { rewrite length_app. destruct pre; simpl in *; [done | lia]. }
    unfold disjoint_feature_names.
    rewrite fmap_app, all_features_app.
    change ([(key, y)].*2) with [y].
    rewrite all_features_singleton, fmap_app.
    split.
    + intros Hg. split; [by rewrite Hg|].
      destruct (decide (MAX_NUM_ARGUMENTS ≤ length (pre ++ (key, y) :: post))) as [Hm|Hm].
      { by rewrite GlueOperator_too_many in Hg. }
      rewrite GlueOperator_loop, loop_app in Hg by lia.
      destruct (loop pre (initial heap)) as [l|e] eqn:Hl; simpl in Hg.
      * apply loop_Ok in Hl as [Hlegal ->].
        apply loop_legal_initial in Hlegal as (Hsp & Hdp & _).
        destruct (loop_body (after_loop (initial heap) pre) key y) as [l'|e] eqn:Hb;
          simpl in Hg.
        -- apply loop_body_Ok in Hb as (_ & _ & _ & _ & Hs & _).
           destruct Hy. by apply Hs.
        -- injection Hg as ->.
           apply loop_body_SamplingMismatch in Hb as (Hk & Hkb & Hnd & Hd & _).
           split; [by apply slots_valid_snoc|].
           apply NoDup_app. split_and!; [done | | done].
           intros n Hn Hin. apply (Hd n Hin). unfold after_loop, initial. simpl.
           rewrite elem_of_union, elem_of_list_to_set. by left.
      * injection Hg as ->.
        apply loop_Raise_inv in Hl
          as [(? & ? & ? & _)|[(? & ? & _ & _ & ?)|(_ & z & first' & Hz & Hf & Hs)]];
          [done | done |].
        change (first_of (initial heap) pre) with (head pre.*2) in Hf.
        simplify_eq. destruct Hs. by apply Hpre.
    + intros (Hlen%GlueOperator_not_too_many & Hslots & Hd).
      rewrite GlueOperator_loop by lia.
      apply slots_valid_app_inv in Hslots as (Hsp & Hk & Hkp).
      apply NoDup_app in Hd as (Hdp & Hdisj & Hdy).
      rewrite loop_app, loop_prefix; [|done|done|]; last first.
      { intros f ?. by simplify_eq. }
      simpl. rewrite (loop_body_sampling_Raise _ _ _ first); try done.
      unfold after_loop, initial, feature_names_of. simpl. intros n Hn.
      rewrite elem_of_union, elem_of_list_to_set, elem_of_empty.
      intros [Hin|[]]. by apply (Hdisj n).
Qed.

Lemma GlueOperator_sampling_mismatch_witness :
  GlueOperator (inputs_dict [node_a; node_b']) 0 = Raise SamplingMismatchError.
Proof.
  destruct (GlueOperator_sampling_mismatch (inputs_dict [node_a; node_b']) 0 node_a node_b')
    as [_ H].
  - reflexivity.
  - simpl. set_solver.
  - by vm_compute.
  - apply (H [(input_key 0, node_a)] (input_key 1) node_b' []).
    + reflexivity.
    + intros y. simpl. rewrite list_elem_of_singleton. by intros ->.
    + by vm_compute.
    + split_and!.
      * by vm_compute.
      * apply (inputs_dict_slots_valid [node_a; node_b']). simpl. unfold MAX_NUM_ARGUMENTS. lia.
      * unfold disjoint_feature_names. simpl. by apply (bool_decide_unpack _).
Defined.

(** A name that two inputs at different positions both have occurs twice
    among the features of all inputs. *)
Lemma shared_name_not_disjoint l1 a l2 b l3 n :
  n ∈ feature_names_of a → n ∈ feature_names_of b →
  ¬ disjoint_feature_names (l1 ++ a :: l2 ++ b :: l3).
Proof.
  unfold disjoint_feature_names, feature_names_of. intros Ha Hb Hd.
  rewrite all_features_app, fmap_app in Hd. apply NoDup_app in Hd as (_ & _ & Hd).
  change (a :: l2 ++ b :: l3) with ([a] ++ l2 ++ [b] ++ l3) in Hd.
  rewrite !all_features_app, !all_features_singleton, !fmap_app in Hd.
  apply NoDup_app in Hd as (_ & Hd & _). apply (Hd n Ha).
  rewrite !elem_of_app. auto.
Qed.

(** C5, as stated, fails: the first and the third of these inputs both
    have a feature [a], yet the error is the sampling mismatch of the
    second input, which the loop meets first. *)
Lemma GlueOperator_duplicate_reported_as_mismatch :
  "a" ∈ feature_names_of node_a ∧ "a" ∈ feature_names_of node_a2 ∧
  GlueOperator (inputs_dict [node_a; node_b'; node_a2]) 0 = Raise SamplingMismatchError ∧
  ∀ n, GlueOperator (inputs_dict [node_a; node_b'; node_a2]) 0
       ≠ Raise (ValueError (Feature_defined_in_multiple_inputs n)).
Proof.
  assert (GlueOperator (inputs_dict [node_a; node_b'; node_a2]) 0
          = Raise SamplingMismatchError) as Hg by (by vm_compute).
  split_and!; [by apply (bool_decide_unpack _) | by apply (bool_decide_unpack _) | done |].
  intros n. rewrite Hg. discriminate.
Qed.

(** C5, amended.  If two inputs of a [GlueOperator] at different positions
    have a feature of the same name, the construction raises and no
    operator and no output node is returned.  The exception is the
    duplicate-feature [ValueError] exactly when no earlier check of the
    constructor fails: the too-many-arguments error is not raised, every
    input before the one with the first feature, in input order, whose
    name was met before has the sampling of the first input, and, that
    input included, the keys are distinct declared slots.  Its message
    then names that feature and advises [prefix()] or [rename()].  In
    every other case the construction raises another exception. *)
Theorem GlueOperator_duplicate_feature
    (inputs : list (string * Node)) (heap : Heap)
    (l1 l2 l3 : list Node) (a b : Node) (n : string) :
  inputs.*2 = l1 ++ a :: l2 ++ b :: l3 →
  n ∈ feature_names_of a → n ∈ feature_names_of b →
  (∃ e, GlueOperator inputs heap = Raise e) ∧
  ∀ pre key y post fpre f fpost first,
    inputs = pre ++ (key, y) :: post →
    features (schema y) = fpre ++ f :: fpost →
    head inputs.*2 = Some first →
    NoDup (name <$> (all_features pre.*2 ++ fpre)) →
    name f ∈ name <$> (all_features pre.*2 ++ fpre) →
    (∀ m, GlueOperator inputs heap
          = Raise (ValueError (Feature_defined_in_multiple_inputs m)) ↔
          m = name f ∧
          GlueOperator inputs heap
          ≠ Raise (ValueError (Too_many_arguments MAX_NUM_ARGUMENTS)) ∧
          all_same_sampling pre.*2 first ∧
          slots_valid (pre ++ [(key, y)])) ∧
    format (Feature_defined_in_multiple_inputs (name f))
    = [Lit ("Feature " +:+ dquote); FmtStr (name f);
       Lit (dquote +:+ " is defined in multiple input nodes to glue. Consider using prefix() or rename().")].
Proof.
  intros Hin Ha Hb. split.
  - destruct (GlueOperator inputs heap) as [[op heap']|e] eqn:Hg; [|by exists e].
    apply GlueOperator_Ok_legal in Hg as [Hd _]. rewrite Hin in Hd.
    by apply shared_name_not_disjoint with (n := n) in Hd.
  - intros pre key y post fpre f fpost first Hi Hf Hh Hnd Hfin.
    split; [|done].
    assert (2 ≤ length inputs) as Hlen2.
    { rewrite <- (length_fmap snd), Hin, length_app. simpl. rewrite length_app. simpl. lia. }
    subst inputs.
    rewrite fmap_app in Hnd, Hfin. apply NoDup_app in Hnd as (Hdp & Hdisj & Hdf).
    assert (∀ x, x ∈ name <$> fpre →
                 x ∉ feature_names (after_loop (initial heap) pre)) as Hfresh.
    { unfold after_loop, initial. simpl. intros x Hx.
      rewrite elem_of_union, elem_of_list_to_set, elem_of_empty.
      intros [Hin'|[]]. by apply (Hdisj x). }
    assert (name f ∈ feature_names (after_loop (initial heap) pre)
            ∨ name f ∈ name <$> fpre) as Hmet.
    { unfold after_loop, initial. simpl.
      rewrite elem_of_union, elem_of_list_to_set.
      apply elem_of_app in Hfin as [?|?]; auto. }
    intros m. split.
    + intros Hg.
      assert (GlueOperator (pre ++ (key, y) :: post) heap
              ≠ Raise (ValueError (Too_many_arguments MAX_NUM_ARGUMENTS))) as Hnt
        by (by rewrite Hg).
      assert (Hlen := GlueOperator_not_too_many _ _ Hnt).
      rewrite GlueOperator_loop, loop_app in Hg by lia.
      destruct (loop pre (initial heap)) as [l|e] eqn:Hl; simpl in Hg.
      * apply loop_Ok in Hl as [Hlegal ->].
        apply loop_legal_initial in Hlegal as (Hsp & _ & Hs).
        destruct (loop_body_at_duplicate (after_loop (initial heap) pre) key y
                    fpre f fpost Hf Hdf Hfresh Hmet) as (e & He & Hm).
        rewrite He in Hg. simpl in Hg. injection Hg as ->.
        destruct (Hm m eq_refl) as (-> & Hk & Hkb).
        split_and!; [done | done | | by apply slots_valid_snoc].
        destruct pre as [|[k0 p0] pre]; [by intros z Hz%elem_of_nil|].
        apply Hs. by simplify_eq/=.
      * injection Hg as ->. exfalso. revert Hl. apply loop_no_duplicate; [done|].
        intros z _. apply not_elem_of_empty.
    + intros (-> & Hlen%GlueOperator_not_too_many & Hpre & Hslots).
      rewrite GlueOperator_loop by lia.
      apply slots_valid_app_inv in Hslots as (Hsp & Hk & Hkp).
      rewrite loop_app, loop_prefix; [|done|done|]; last first.
      { intros f' Hf'. destruct pre as [|[k0 p0] pre]; simplify_eq/=. done. }
      simpl. by rewrite (loop_body_duplicate_Raise _ _ _ fpre f fpost).
Qed.

Lemma GlueOperator_duplicate_feature_witness :
  GlueOperator (inputs_dict [node_a; node_a2]) 0
  = Raise (ValueError (Feature_defined_in_multiple_inputs "a")).
Proof.
  destruct (GlueOperator_duplicate_feature (inputs_dict [node_a; node_a2]) 0
              [] [] [] node_a node_a2 "a") as [_ H].
  - reflexivity.
  - by apply (bool_decide_unpack _).
  - by apply (bool_decide_unpack _).
  - destruct (H [(input_key 0, node_a)] (input_key 1) node_a2 []
                [] {| name := "a"; dtype := FLOAT64 |} [] node_a) as [Hiff _].
    + reflexivity.
    + reflexivity.
    + reflexivity.
    + simpl. by apply (bool_decide_unpack _).
    + simpl. by apply (bool_decide_unpack _).
    + apply (Hiff "a"). split_and!.
      * reflexivity.
      * by vm_compute.
      * intros y. simpl. rewrite list_elem_of_singleton. by intros ->.
      * apply (inputs_dict_slots_valid [node_a; node_a2]). simpl. unfold MAX_NUM_ARGUMENTS. lia.
Defined.

End GlueFacts.

(** *** Unary operators *)

Module UnaryFacts.
Import Base Unary BaseFacts.

Lemma check_dtypes_Ok cls features r :
  check_dtypes cls features = Ok r ↔
  Forall (fun f => Feature.dtype f ∈ allowed_dtypes cls) features.
Proof.
  destruct r. induction features as [|f features IH]; simpl.
  - split; [constructor | done].
  - rewrite Forall_cons. case_decide; [by rewrite IH; tauto | naive_solver].
Qed.

Lemma check_dtypes_Raise cls pre f post :
  Forall (fun f => Feature.dtype f ∈ allowed_dtypes cls) pre →
  Feature.dtype f ∉ allowed_dtypes cls →
  check_dtypes cls (pre ++ f :: post)
  = Raise (ValueError (DTypes_supported (allowed_dtypes cls) (Feature.name f) (Feature.dtype f))).
Proof.
  intros Hpre Hf. induction Hpre as [|g pre Hg Hpre IH]; simpl.
  - by rewrite decide_False.
  - by rewrite decide_True.
Qed.

(** A list has either only allowed dtypes or a first feature whose dtype
    is not allowed. *)
Lemma first_disallowed cls (features : list Feature.t) :
  Forall (fun f => Feature.dtype f ∈ allowed_dtypes cls) features ∨
  ∃ pre f post, features = pre ++ f :: post ∧
    Forall (fun f => Feature.dtype f ∈ allowed_dtypes cls) pre ∧
    Feature.dtype f ∉ allowed_dtypes cls.
Proof.
  induction features as [|f features [IH|(pre & g & post & -> & Hpre & Hg)]].
  - left. constructor.
  - destruct (decide (Feature.dtype f ∈ allowed_dtypes cls)) as [Hf|Hf].
    + left. by constructor.
    + right. exists [], f, features. split_and!; [done | constructor | done].
  - destruct (decide (Feature.dtype f ∈ allowed_dtypes cls)) as [Hf|Hf].
    + right. exists (f :: pre), g, post. split_and!; [done | by constructor | done].
    + right. exists [], f, (pre ++ g :: post). split_and!; [done | constructor | done].
Qed.

Lemma BaseUnaryOperator_Ok cls input heap :
  Forall (fun f => Feature.dtype f ∈ allowed_dtypes cls) (Node.features input) →
  BaseUnaryOperator cls (PyNode input) heap
  = Ok ({| op_oid := heap; definition := build_op_definition cls;
           inputs := [("input", input)];
           outputs := [("output", unary_output cls input heap)] |}, S heap).
Proof.
  intros Hall. unfold BaseUnaryOperator. simpl.
  rewrite (proj2 (check_dtypes_Ok cls _ ())) by done. reflexivity.
Qed.

Lemma BaseUnaryOperator_Raise cls input heap pre f post :
  Node.features input = pre ++ f :: post →
  Forall (fun f => Feature.dtype f ∈ allowed_dtypes cls) pre →
  Feature.dtype f ∉ allowed_dtypes cls →
  BaseUnaryOperator cls (PyNode input) heap
  = Raise (ValueError (DTypes_supported (allowed_dtypes cls) (Feature.name f) (Feature.dtype f))).
Proof.
  intros Hf Hpre Hd. unfold BaseUnaryOperator. simpl.
  by rewrite Hf, check_dtypes_Raise.
Qed.

Lemma output_of_Ok cls input heap :
  Forall (fun f => Feature.dtype f ∈ allowed_dtypes cls) (Node.features input) →
  output_of cls (PyNode input) heap = Ok (unary_output cls input heap, S heap).
Proof.
  intros Hall. unfold output_of. by rewrite BaseUnaryOperator_Ok.
Qed.

Lemma output_of_Raise cls input heap e :
  BaseUnaryOperator cls input heap = Raise e → output_of cls input heap = Raise e.
Proof. intros H. unfold output_of. by rewrite H. Qed.

(** C2.  A unary operator (any implementation of the abstract members, so
    each of invert, isnan, notnan, abs, log) built on a node all of whose
    feature dtypes it allows has one output, the node its public function
    returns.  That node has as many features as the input, with the same
    names in the same order, and its sampling is the sampling object of
    the input itself; so is the sampling of each of its features. *)
Theorem unary_output_features_and_sampling
    (cls : UnaryOperator) (input : Node.t) (heap : Heap) :
  Forall (fun f => Feature.dtype f ∈ allowed_dtypes cls) (Node.features input) →
  ∃ op out heap',
    BaseUnaryOperator cls (PyNode input) heap = Ok (op, heap') ∧
    outputs op = [("output", out)] ∧
    output_of cls (PyNode input) heap = Ok (out, heap') ∧
    length (Node.features out) = length (Node.features input) ∧
    Feature.name <$> Node.features out = Feature.name <$> Node.features input ∧
    Node.sampling out = Node.sampling input ∧
    same_object (Node.sampling out) (Node.sampling input) ∧
    Forall (fun f => Feature.sampling f = Node.sampling input) (Node.features out).
Proof.
  intros Hall. do 3 eexists.
  split; [by apply BaseUnaryOperator_Ok|]. split; [done|].
  split; [by apply output_of_Ok|]. unfold unary_output. simpl.
  split_and!; [by rewrite length_fmap | | done | done |].
  - rewrite <- list_fmap_compose. by apply list_fmap_ext.
  - apply Forall_fmap. by apply Forall_true.
Qed.

Lemma unary_output_features_and_sampling_witness :
  ∃ out heap',
    log (PyNode (input_node [("f", FLOAT64); ("g", FLOAT32)])) 0 = Ok (out, heap') ∧
    Feature.name <$> Node.features out = ["f"; "g"] ∧
    Node.sampling out = sampling_0.
Proof.
  destruct (unary_output_features_and_sampling LogOperator
              (input_node [("f", FLOAT64); ("g", FLOAT32)]) 0)
    as (op & out & heap' & _ & _ & Ho & _ & Hn & Hs & _).
  - simpl. repeat constructor; by apply (bool_decide_unpack _).
  - exists out, heap'. done.
Defined.

(** C3, as stated, fails on the class of the error: [log] on a boolean
    feature raises the [ValueError] of the dtype loop, and no
    [TypeError]; the constructor raises [TypeError] only for an input that
    is not a node. *)
Lemma log_on_boolean_raises_ValueError :
  log (PyNode (input_node [("f", BOOLEAN)])) 0
  = Raise (ValueError (DTypes_supported [FLOAT32; FLOAT64] "f" BOOLEAN)) ∧
  (∀ m, log (PyNode (input_node [("f", BOOLEAN)])) 0 ≠ Raise (TypeError m)) ∧
  log (PyOther "int") 0 = Raise (TypeError (Input_must_be_Node "int")).
Proof.
  split_and!; [done | | done]. intros m. discriminate.
Qed.

(** C3, amended.  invert allows only boolean and yields boolean; isnan and
    notnan allow boolean, int32, int64, float32 and float64 and yield
    boolean; abs allows the four numeric dtypes and log the two float
    dtypes, and both keep the dtype.  For every such operator and node the
    construction succeeds exactly when every feature dtype is allowed, and
    then the dtype of each output feature is the operator's function of
    the dtype of the input feature; otherwise it raises a [ValueError]
    that carries the allowed dtypes and the name and dtype of the first
    feature whose dtype is not allowed. *)
Theorem unary_dtype_contract :
  (allowed_dtypes InvertOperator = [BOOLEAN] ∧
   ∀ d, get_output_dtype InvertOperator d = BOOLEAN) ∧
  ((∀ d, d ∈ allowed_dtypes IsNanOperator ↔ d ∈ [BOOLEAN; INT32; INT64; FLOAT32; FLOAT64]) ∧
   ∀ d, get_output_dtype IsNanOperator d = BOOLEAN) ∧
  ((∀ d, d ∈ allowed_dtypes NotNanOperator ↔ d ∈ [BOOLEAN; INT32; INT64; FLOAT32; FLOAT64]) ∧
   ∀ d, get_output_dtype NotNanOperator d = BOOLEAN) ∧
  ((∀ d, d ∈ allowed_dtypes AbsOperator ↔ d ∈ [INT32; INT64; FLOAT32; FLOAT64]) ∧
   ∀ d, get_output_dtype AbsOperator d = d) ∧
  ((∀ d, d ∈ allowed_dtypes LogOperator ↔ d ∈ [FLOAT32; FLOAT64]) ∧
   ∀ d, get_output_dtype LogOperator d = d) ∧
  ∀ (cls : UnaryOperator) (input : Node.t) (heap : Heap),
    ((∃ r, BaseUnaryOperator cls (PyNode input) heap = Ok r) ↔
     Forall (fun f => Feature.dtype f ∈ allowed_dtypes cls) (Node.features input)) ∧
    (Forall (fun f => Feature.dtype f ∈ allowed_dtypes cls) (Node.features input) →
     ∃ out heap',
       output_of cls (PyNode input) heap = Ok (out, heap') ∧
       Feature.dtype <$> Node.features out
       = get_output_dtype cls <$> (Feature.dtype <$> Node.features input)) ∧
    (∀ pre f post,
       Node.features input = pre ++ f :: post →
       Forall (fun f => Feature.dtype f ∈ allowed_dtypes cls) pre →
       Feature.dtype f ∉ allowed_dtypes cls →
       output_of cls (PyNode input) heap
       = Raise (ValueError (DTypes_supported (allowed_dtypes cls) (Feature.name f)
                                             (Feature.dtype f))) ∧
       format (DTypes_supported (allowed_dtypes cls) (Feature.name f) (Feature.dtype f))
       = [Lit "DTypes supported by the operator: "; FmtDTypes (allowed_dtypes cls);
          Lit ". Got feature "; FmtStr (Feature.name f); Lit " with dtype ";
          FmtDType (Feature.dtype f); Lit "."]).
Proof.
  split_and!; try done;
    try (intros d; simpl; rewrite !elem_of_cons, !elem_of_nil; tauto).
  intros cls input heap. split_and!.
  - split.
    + intros [r Hr].
      destruct (first_disallowed cls (Node.features input))
        as [Hall|(pre & f & post & Hf & Hpre & Hd)]; [done|].
      by rewrite (BaseUnaryOperator_Raise cls input heap pre f post) in Hr.
    + intros Hall. eexists. by apply BaseUnaryOperator_Ok.
  - intros Hall. do 2 eexists. split; [by apply output_of_Ok|].
    unfold unary_output. simpl. by rewrite <- !list_fmap_compose.
  - intros pre f post Hf Hpre Hd. split; [|done].
    apply output_of_Raise. by apply BaseUnaryOperator_Raise with (pre := pre) (post := post).
Qed.

Lemma unary_dtype_contract_witness :
  log (PyNode (input_node [("f", FLOAT64); ("g", BOOLEAN)])) 0
  = Raise (ValueError (DTypes_supported [FLOAT32; FLOAT64] "g" BOOLEAN)).
Proof.
  destruct unary_dtype_contract as (_ & _ & _ & _ & _ & H).
  destruct (H LogOperator (input_node [("f", FLOAT64); ("g", BOOLEAN)]) 0) as (_ & _ & Hr).
  apply (Hr [{| Feature.name := "f"; Feature.dtype := FLOAT64;
                Feature.sampling := sampling_0; Feature.creator := None |}]
            {| Feature.name := "g"; Feature.dtype := BOOLEAN;
               Feature.sampling := sampling_0; Feature.creator := None |} []).
  - reflexivity.
  - repeat constructor.
  - by apply (bool_decide_unpack _).
Defined.

End UnaryFacts.

(** *** Calendar minute *)

Module CalendarFacts.
Import Base Data Calendar.

Lemma minute_of_range t : (0 ≤ minute_of t ≤ 59)%Z.
Proof. unfold minute_of. pose proof (Z.mod_pos_bound (t / 60) 60). lia. Qed.

(** C7.  [calendar_minute] on a node whose schema does not say that the
    timestamps are unix times raises [PreconditionError].  Otherwise it
    returns a node with the single feature [calendar_minute] of dtype
    int32 on the sampling node of the input, and the same node for any
    other input with that sampling node and those indexes, whatever its
    features.  The values the kernel computes lie between 0 and 59, and
    are 30 and 59 for 18:30 and 23:59. *)
Theorem calendar_minute_contract (sampling : Node) (heap : Heap) :
  (is_unix_timestamp (schema sampling) = false →
   calendar_minute sampling heap = Raise PreconditionError) ∧
  (is_unix_timestamp (schema sampling) = true →
   ∃ out heap',
     calendar_minute sampling heap = Ok (out, heap') ∧
     features (schema out) = [{| name := "calendar_minute"; dtype := INT32 |}] ∧
     length (feature_nodes out) = 1 ∧
     sampling_node out = sampling_node sampling ∧
     ∀ other,
       is_unix_timestamp (schema other) = true →
       sampling_node other = sampling_node sampling →
       indexes (schema other) = indexes (schema sampling) →
       calendar_minute other heap = Ok (out, heap')) ∧
  (∀ timestamps v, v ∈ calendar_minute_values timestamps → (0 ≤ v ≤ 59)%Z) ∧
  calendar_minute_values random_hours = [30; 59]%Z.
Proof.
  split_and!.
  - intros H. unfold calendar_minute, BaseCalendarOperator. simpl. by rewrite H.
  - intros H. do 2 eexists. split_and!.
    + unfold calendar_minute, BaseCalendarOperator. simpl. rewrite H. reflexivity.
    + done.
    + done.
    + done.
    + intros other Ho Hs Hi.
      unfold calendar_minute, BaseCalendarOperator. simpl. by rewrite Ho, Hs, Hi.
  - intros timestamps v (t & -> & _)%list_elem_of_fmap. apply minute_of_range.
  - reflexivity.
Qed.

Lemma calendar_minute_contract_witness :
  calendar_minute (input_node false) 3 = Raise PreconditionError ∧
  ∃ out heap',
    calendar_minute (input_node true) 3 = Ok (out, heap') ∧
    features (schema out) = [{| name := "calendar_minute"; dtype := INT32 |}].
Proof.
  split.
  - by apply (calendar_minute_contract (input_node false) 3).
  - destruct (calendar_minute_contract (input_node true) 3) as (_ & H & _).
    destruct H as (out & heap' & Hc & Hf & _); [reflexivity|].
    by exists out, heap'.
Defined.

End CalendarFacts.

(** *** Glue: more on the constructor *)

Module GlueMore.
Import Base Data Glue BaseFacts GlueFacts.

(** Why the constructor raises: an arity guard, a slot the base class
    refuses, a feature name met twice or a sampling that differs.  The
    assertion after the loop never fails. *)
Lemma GlueOperator_Raise_inv inputs heap e :
  GlueOperator inputs heap = Raise e →
  (length inputs < 2 ∧ e = ValueError At_least_two_arguments) ∨
  (MAX_NUM_ARGUMENTS ≤ length inputs ∧
   e = ValueError (Too_many_arguments MAX_NUM_ARGUMENTS)) ∨
  (2 ≤ length inputs < MAX_NUM_ARGUMENTS ∧
   ((∃ k fault, e = GraphConstructionError k fault ∧
                ¬ (slots_valid inputs ∧ input_key 0 ∈ inputs.*1 ∧ input_key 1 ∈ inputs.*1)) ∨
    (∃ x f, x ∈ inputs.*2 ∧ f ∈ features (schema x) ∧
            e = ValueError (Feature_defined_in_multiple_inputs (name f))) ∨
    (e = SamplingMismatchError ∧
     ∃ x first, x ∈ inputs.*2 ∧ head inputs.*2 = Some first ∧ ¬ same_sampling x first))).
Proof.
  destruct (decide (length inputs < 2)) as [H2|H2].
  { rewrite GlueOperator_too_few by done. intros [= <-]. by left. }
  destruct (decide (MAX_NUM_ARGUMENTS ≤ length inputs)) as [Hm|Hm].
  { rewrite GlueOperator_too_many by done. intros [= <-]. right. by left. }
  intros Hg. right. right. split; [lia|].
  destruct (loop inputs (initial heap)) as [l|e'] eqn:Hl.
  - assert (Hl' := Hl). apply loop_Ok in Hl' as [Hlegal ->].
    rewrite GlueOperator_loop, Hl in Hg by lia. simpl in Hg.
    change (first_of (initial heap) inputs) with (head inputs.*2) in Hg.
    destruct (head inputs.*2) as [first|] eqn:Hh.
    2:{ destruct inputs; simpl in *; [lia | done]. }
    destruct (check _) as [[]|e''] eqn:Hc; simpl in Hg; [done|].
    injection Hg as <-. left. unfold check in Hc.
    destruct (missing_input _) as [slot|] eqn:Hmi; [|done].
    injection Hc as <-. do 2 eexists. split; [done|]. intros (_ & H0 & H1).
    assert (missing_input
              {| op_oid := heap; definition := build_op_definition; inputs := inputs;
                 outputs := [("output", glue_output inputs.*2 first heap)] |} = None) as Hnone
      by (by apply missing_input_glue).
    unfold glue_output in Hnone. by rewrite Hmi in Hnone.
  - rewrite GlueOperator_loop, Hl in Hg by lia. simpl in Hg. injection Hg as <-.
    apply loop_Raise_inv in Hl as [(k & fault & He & Hk)|[?|?]]; [subst e'; left|by right; left|by right; right].
    exists k, fault. split; [done|]. intros (Hs & _). apply Hk.
    destruct Hs as [Hnd Hd]. split; [done|]. intros k' Hk'. split; [by apply Hd|].
    simpl. apply not_elem_of_nil.
Qed.

(** X1.  The two arity errors are raised for exactly the numbers of
    inputs outside 2..29, whatever the keys, features and samplings of
    the inputs are: "At least two arguments" exactly for fewer than two
    inputs, "Too many" (always with the constant in its message) exactly
    for [MAX_NUM_ARGUMENTS] or more. *)
Theorem GlueOperator_arity_errors (inputs : list (string * Node)) (heap : Heap) :
  (GlueOperator inputs heap = Raise (ValueError At_least_two_arguments) ↔
   length inputs < 2) ∧
  (∀ n, GlueOperator inputs heap = Raise (ValueError (Too_many_arguments n)) ↔
        n = MAX_NUM_ARGUMENTS ∧ MAX_NUM_ARGUMENTS ≤ length inputs).
Proof.
  split.
  - split; [|apply GlueOperator_too_few].
    intros [[? _]|[[_ ?]|[_ H]]]%GlueOperator_Raise_inv; [done | done |].
    destruct H as [(? & ? & ? & _)|[(? & ? & _ & _ & ?)|[? _]]]; done.
  - intros n. split; [|by intros [-> ?]; apply GlueOperator_too_many].
    intros [[_ ?]|[[? ?]|[_ H]]]%GlueOperator_Raise_inv; [done | by simplify_eq |].
    destruct H as [(? & ? & ? & _)|[(? & ? & _ & _ & ?)|[? _]]]; done.
Qed.

(** The constructor on the keyword arguments that [glue] builds. *)
Lemma GlueOperator_inputs_dict_Ok nodes heap op heap' :
  GlueOperator (inputs_dict nodes) heap = Ok (op, heap') ↔
  2 ≤ length nodes < MAX_NUM_ARGUMENTS ∧ disjoint_feature_names nodes ∧
  ∃ first, head nodes = Some first ∧ all_same_sampling nodes first ∧
    heap' = S (S heap) ∧
    op = {| op_oid := heap; definition := build_op_definition;
            inputs := inputs_dict nodes;
            outputs := [("output", glue_output nodes first heap)] |}.
Proof.
  rewrite GlueOperator_Ok, loop_legal_initial, length_inputs_dict, inputs_dict_nodes.
  split.
  - intros (Hlen & (_ & Hd & Hs) & _ & _ & first & Hh & -> & ->).
    split_and!; [lia | lia | done |]. exists first. split_and!; auto.
  - intros (Hlen & Hd & first & Hh & Hs & -> & ->).
    split_and!; [lia | lia | apply inputs_dict_slots_valid; lia | done |
                 | apply inputs_dict_required; lia | apply inputs_dict_required; lia
                 | by exists first].
    intros first' ?. by simplify_eq.
Qed.

(** X2.  The public [glue] returns a node exactly when it is given one
    node, or at least two and fewer than [MAX_NUM_ARGUMENTS] nodes that
    all have the sampling object of the first one and among whose
    features no name occurs twice. *)
Theorem glue_succeeds_iff (nodes : list Node) (heap : Heap) :
  (∃ out heap', glue nodes heap = Ok (out, heap')) ↔
  length nodes = 1 ∨
  (2 ≤ length nodes < MAX_NUM_ARGUMENTS ∧ disjoint_feature_names nodes ∧
   ∀ first, head nodes = Some first → all_same_sampling nodes first).
Proof.
  destruct (decide (length nodes = 1)) as [H1|H1].
  { destruct nodes as [|x [|y rest]]; simplify_eq/=. split; [by left | by eauto]. }
  split.
  - intros (out & heap' & Hg). right.
    assert (glue nodes heap =
            '(op, heap) ← GlueOperator (inputs_dict nodes) heap;
            node ← get_output op "output"; Ok (node, heap)) as Heq.
    { by destruct nodes as [|x [|y rest]]. }
    rewrite Heq in Hg.
    destruct (GlueOperator (inputs_dict nodes) heap) as [[op h]|e] eqn:Hop; [|done].
    apply GlueOperator_inputs_dict_Ok in Hop as (? & ? & first & ? & ? & _).
    split_and!; [lia | lia | done |]. intros first' ?. by simplify_eq.
  - intros [?|(Hlen & Hd & Hs)]; [done|].
    destruct nodes as [|first rest] eqn:Hn; [simpl in Hlen; lia|]. rewrite <- Hn in *.
    assert (head nodes = Some first) as Hh by (by rewrite Hn).
    destruct (glue_two_or_more nodes first heap) as [_ Hg]; auto. by eauto.
Qed.

(** X3.  When the public [glue] raises, the exception is one of four:
    the too-few error (only for no node at all), the too-many error, the
    duplicate error naming a feature of one of the nodes, or the sampling
    mismatch, and then some node has not the sampling object of the
    first.  In particular the assertion after the loop, the lookup of
    the output and the slot checks of the base class never fail. *)
Theorem glue_raises_only (nodes : list Node) (heap : Heap) (e : Exception) :
  glue nodes heap = Raise e →
  (nodes = [] ∧ e = ValueError At_least_two_arguments) ∨
  (MAX_NUM_ARGUMENTS ≤ length nodes ∧
   e = ValueError (Too_many_arguments MAX_NUM_ARGUMENTS)) ∨
  (2 ≤ length nodes < MAX_NUM_ARGUMENTS ∧
   ∃ x f, x ∈ nodes ∧ f ∈ features (schema x) ∧
          e = ValueError (Feature_defined_in_multiple_inputs (name f))) ∨
  (2 ≤ length nodes < MAX_NUM_ARGUMENTS ∧ e = SamplingMismatchError ∧
   ∃ x first, x ∈ nodes ∧ head nodes = Some first ∧ ¬ same_sampling x first).
Proof.
  intros Hg.
  assert (length nodes ≠ 1) as H1 by (by destruct nodes as [|x [|y rest]]).
  assert (GlueOperator (inputs_dict nodes) heap = Raise e) as Hop.
  { assert (glue nodes heap =
            '(op, heap) ← GlueOperator (inputs_dict nodes) heap;
            node ← get_output op "output"; Ok (node, heap)) as Heq.
    { by destruct nodes as [|x [|y rest]]. }
    rewrite Heq in Hg.
    destruct (GlueOperator (inputs_dict nodes) heap) as [[op h]|e'] eqn:Hop;
      simpl in Hg; [|by injection Hg as ->].
    by apply GlueOperator_inputs_dict_Ok in Hop as (_ & _ & first & _ & _ & _ & ->). }
  apply GlueOperator_Raise_inv in Hop. revert Hop.
  rewrite length_inputs_dict, inputs_dict_nodes.
  intros [[Hlen ->]|[[Hlen ->]|[Hlen [(k & fault & _ & Hk)|[Hd|Hs]]]]].
  - left. destruct nodes as [|x [|y rest]]; simpl in *; [done | lia | lia].
  - right. by left.
  - destruct Hk. split; [apply inputs_dict_slots_valid; lia | apply inputs_dict_required; lia].
  - right. right. left. done.
  - right. right. right. destruct Hs as [-> ?]. done.
Qed.

Lemma glue_raises_only_witness :
  glue [node_a; node_b'] 0 = Raise SamplingMismatchError ∧
  ¬ same_sampling node_b' node_a.
Proof.
  assert (glue [node_a; node_b'] 0 = Raise SamplingMismatchError) as Hg by (by vm_compute).
  split; [done|].
  destruct (glue_raises_only [node_a; node_b'] 0 SamplingMismatchError Hg)
    as [[? _]|[[? _]|[(_ & ? & ? & _ & _ & ?)|(_ & _ & x & first & Hx & Hf & Hs)]]];
    [done | simpl in *; unfold MAX_NUM_ARGUMENTS in *; lia | done |].
  by vm_compute.
Defined.

(** X4.  A glue of two or more nodes that succeeds creates exactly two
    objects, the operator and then its output node: the node has a new
    identity and names the operator as its creator, its feature nodes are
    the feature nodes of the inputs themselves, in input order, and the
    operator holds the given nodes, in order, under the keys [input_0],
    [input_1], ... and the node as its only output. *)
Theorem glue_allocates_operator_and_node
    (nodes : list Node) (heap heap' : Heap) (out : Node) :
  2 ≤ length nodes → glue nodes heap = Ok (out, heap') →
  heap' = heap + 2 ∧ node_oid out = heap + 1 ∧ creator out = Some heap ∧
  feature_nodes out = nodes ≫= feature_nodes ∧
  (∀ x, x ∈ nodes → node_oid x < heap → node_oid x ≠ node_oid out) ∧
  ∃ op, GlueOperator (inputs_dict nodes) heap = Ok (op, heap') ∧
        op_oid op = heap ∧ (inputs op).*2 = nodes ∧
        (inputs op).*1 = input_key <$> seq 0 (length nodes) ∧
        outputs op = [("output", out)].
Proof.
  intros Hlen Hg.
  assert (glue nodes heap =
          '(op, heap) ← GlueOperator (inputs_dict nodes) heap;
          node ← get_output op "output"; Ok (node, heap)) as Heq.
  { destruct nodes as [|x [|y rest]]; simpl in *; [done | lia | done]. }
  rewrite Heq in Hg.
  destruct (GlueOperator (inputs_dict nodes) heap) as [[op h]|e] eqn:Hop; [|done].
  apply GlueOperator_inputs_dict_Ok in Hop as (_ & _ & first & _ & _ & -> & ->).
  simpl in Hg. injection Hg as <- <-. simpl.
  split_and!; [lia | lia | done | done | intros; lia |].
  eexists. split_and!; [done | done | apply inputs_dict_nodes | apply inputs_dict_keys | done].
Qed.

Lemma glue_allocates_operator_and_node_witness :
  ∃ out, glue [node_a; input_node 1 ["b"] S0] 7 = Ok (out, 9) ∧ node_oid out = 8.
Proof.
  assert (∃ out, glue [node_a; input_node 1 ["b"] S0] 7 = Ok (out, 9)) as [out Hg].
  { eexists. by vm_compute. }
  exists out. split; [done|].
  by destruct (glue_allocates_operator_and_node _ 7 9 out
                 (le_n 2 : 2 ≤ length [node_a; input_node 1 ["b"] S0]) Hg)
    as (_ & -> & _).
Defined.

(** The constructor is stopped by the first feature, in input order,
    whose name was met before, when the inputs before it are legal. *)
Lemma GlueOperator_stops_at_duplicate inputs heap pre key y post fpre f fpost :
  inputs = pre ++ (key, y) :: post →
  features (schema y) = fpre ++ f :: fpost →
  2 ≤ length inputs < MAX_NUM_ARGUMENTS →
  (∀ first, head pre.*2 = Some first → all_same_sampling pre.*2 first) →
  slots_valid (pre ++ [(key, y)]) →
  NoDup (name <$> (all_features pre.*2 ++ fpre)) →
  name f ∈ name <$> (all_features pre.*2 ++ fpre) →
  GlueOperator inputs heap
  = Raise (ValueError (Feature_defined_in_multiple_inputs (name f))).
Proof.
  intros -> Hf Hlen Hpre Hslots Hnd Hfin.
  rewrite GlueOperator_loop by done.
  apply slots_valid_app_inv in Hslots as (Hsp & Hk & Hkp).
  rewrite fmap_app in Hnd, Hfin. apply NoDup_app in Hnd as (Hdp & Hdisj & Hdf).
  rewrite loop_app, loop_prefix; [|done|done|done].
  simpl. rewrite (loop_body_duplicate_Raise _ _ _ fpre f fpost); try done.
  - unfold after_loop, initial. simpl. intros m Hm.
    rewrite elem_of_union, elem_of_list_to_set, elem_of_empty.
    intros [Hin'|[]]. by apply (Hdisj m).
  - unfold after_loop, initial. simpl.
    rewrite elem_of_union, elem_of_list_to_set.
    apply elem_of_app in Hfin as [?|?]; auto.
Qed.

Lemma glue_as_operator nodes heap :
  length nodes ≠ 1 →
  glue nodes heap =
  '(op, heap) ← GlueOperator (inputs_dict nodes) heap;
  node ← get_output op "output"; Ok (node, heap).
Proof. intros H. by destruct nodes as [|x [|y rest]]. Qed.

(** X5.  Gluing a node with itself raises the duplicate-feature error for
    its first feature as soon as it has a feature (with names that are
    unique in its schema); a node without features can be glued with
    itself, and the result has no feature either. *)
Theorem glue_node_with_itself (a : Node) (heap : Heap) :
  (∀ f fs, features (schema a) = f :: fs → NoDup (feature_names_of a) →
           glue [a; a] heap
           = Raise (ValueError (Feature_defined_in_multiple_inputs (name f)))) ∧
  (features (schema a) = [] →
   ∃ out heap', glue [a; a] heap = Ok (out, heap') ∧ features (schema out) = []).
Proof.
  split.
  - intros f fs Hf Hnd. rewrite glue_as_operator by done. simpl.
    rewrite (GlueOperator_stops_at_duplicate _ heap [(input_key 0, a)] (input_key 1) a []
               [] f fs); try done.
    + simpl. unfold MAX_NUM_ARGUMENTS. lia.
    + intros first [= <-] x. simpl. rewrite list_elem_of_singleton. by intros ->.
    + apply (inputs_dict_slots_valid [a; a]). simpl. unfold MAX_NUM_ARGUMENTS. lia.
    + simpl. unfold all_features. simpl. by rewrite !app_nil_r.
    + simpl. unfold all_features. simpl. rewrite !app_nil_r, Hf. left.
  - intros Hf. destruct (glue_two_or_more [a; a] a heap) as [_ Hg]; try done.
    + simpl. unfold MAX_NUM_ARGUMENTS. lia.
    + intros x. rewrite !elem_of_cons, elem_of_nil. by intros [->|[->|[]]].
    + unfold disjoint_feature_names, all_features. simpl. rewrite Hf. constructor.
    + do 2 eexists. split; [exact Hg|]. unfold all_features. simpl. by rewrite Hf.
Qed.

Lemma glue_node_with_itself_witness :
  glue [node_a; node_a] 0 = Raise (ValueError (Feature_defined_in_multiple_inputs "a")).
Proof.
  destruct (glue_node_with_itself node_a 0) as [H _].
  apply (H {| name := "a"; dtype := FLOAT64 |} []).
  - reflexivity.
  - by apply (bool_decide_unpack _).
Defined.

(** X6.  The duplicate check also refuses a name that is repeated inside
    the schema of the first input alone: whatever the other inputs and
    their samplings are, the error names the first feature of that input
    whose name an earlier feature of it has. *)
Theorem glue_first_input_repeats_name
    (a : Node) (rest : list Node) (heap : Heap)
    (fpre fpost : list FeatureSchema) (f : FeatureSchema) :
  features (schema a) = fpre ++ f :: fpost →
  NoDup (name <$> fpre) → name f ∈ name <$> fpre →
  1 ≤ length rest < MAX_NUM_ARGUMENTS - 1 →
  glue (a :: rest) heap
  = Raise (ValueError (Feature_defined_in_multiple_inputs (name f))).
Proof.
  intros Hf Hnd Hin Hlen.
  rewrite glue_as_operator by (simpl; lia).
  rewrite (GlueOperator_stops_at_duplicate _ heap [] (input_key 0) a
             (imap (fun idx input => (input_key (S idx), input)) rest) fpre f fpost);
    try done.
  - rewrite length_inputs_dict. simpl. lia.
  - apply (inputs_dict_slots_valid [a]). simpl. unfold MAX_NUM_ARGUMENTS. lia.
Qed.

Lemma glue_first_input_repeats_name_witness :
  glue [input_node 0 ["a"; "a"] S0; node_b'] 0
  = Raise (ValueError (Feature_defined_in_multiple_inputs "a")).
Proof.
  apply (glue_first_input_repeats_name (input_node 0 ["a"; "a"] S0) [node_b'] 0
           [{| name := "a"; dtype := FLOAT64 |}] [] {| name := "a"; dtype := FLOAT64 |}).
  - reflexivity.
  - by apply (bool_decide_unpack _).
  - by apply (bool_decide_unpack _).
  - simpl. unfold MAX_NUM_ARGUMENTS. lia.
Defined.

(** What a glue of legal inputs returns, one input included. *)
Lemma glue_Ok_shape nodes first heap :
  head nodes = Some first → length nodes < MAX_NUM_ARGUMENTS →
  all_same_sampling nodes first → disjoint_feature_names nodes →
  ∃ out heap',
    glue nodes heap = Ok (out, heap') ∧
    schema out = {| features := all_features nodes;
                    indexes := indexes (schema first);
                    is_unix_timestamp := is_unix_timestamp (schema first) |} ∧
    sampling_node out = sampling_node first.
Proof.
  intros Hh Hlen Hs Hd. destruct (decide (length nodes = 1)) as [H1|H1].
  - destruct nodes as [|x [|y rest]]; simplify_eq/=. exists first, heap.
    rewrite app_nil_r. split_and!; [done | | done].
    by destruct (schema first).
  - destruct (glue_two_or_more nodes first heap) as [_ Hg]; try done.
    { destruct nodes; simplify_eq/=. lia. }
    by eauto.
Qed.


(** X7.  Gluing in two steps gives the schema and sampling of gluing at
    once: for legal nodes [pre ++ post], of which [pre] is not empty,
    [glue] of [glue pre] and [post] returns a node with the same schema
    and the same sampling node as [glue] of all of them. *)
Theorem glue_flattens (pre post : list Node) (first : Node) (heap heap0 : Heap) :
  head pre = Some first → length (pre ++ post) < MAX_NUM_ARGUMENTS →
  all_same_sampling (pre ++ post) first → disjoint_feature_names (pre ++ post) →
  ∃ inner h1 nested h2 flat h3,
    glue pre heap = Ok (inner, h1) ∧ glue (inner :: post) h1 = Ok (nested, h2) ∧
    glue (pre ++ post) heap0 = Ok (flat, h3) ∧
    schema nested = schema flat ∧ sampling_node nested = sampling_node flat.
Proof.
  intros Hh Hlen Hs Hd. rewrite length_app in Hlen.
  assert (1 ≤ length pre) as Hpre by (destruct pre; simplify_eq/=; lia).
  destruct (glue_Ok_shape pre first heap) as (inner & h1 & Hg1 & Hs1 & Hn1); try done.
  { lia. }
  { intros x Hx. apply Hs, elem_of_app. by left. }
  { unfold disjoint_feature_names in *. rewrite all_features_app, fmap_app in Hd.
    by apply NoDup_app in Hd as (? & _). }
  destruct (glue_Ok_shape (inner :: post) inner h1) as (nested & h2 & Hg2 & Hs2 & Hn2);
    try done.
  { simpl. lia. }
  { intros x [->|Hx]%elem_of_cons; [done|]. unfold same_sampling. rewrite Hn1.
    apply Hs, elem_of_app. by right. }
  { unfold disjoint_feature_names in *.
    change (inner :: post) with ([inner] ++ post).
    rewrite all_features_app, all_features_singleton, Hs1. simpl.
    by rewrite <- all_features_app. }
  destruct (glue_Ok_shape (pre ++ post) first heap0) as (flat & h3 & Hg3 & Hs3 & Hn3);
    try done.
  { by destruct pre; simplify_eq/=. }
  { rewrite length_app. lia. }
  exists inner, h1, nested, h2, flat, h3. split_and!; try done.
  - rewrite Hs2, Hs3, Hs1. simpl. rewrite Hs1. simpl.
    by rewrite all_features_app.
  - by rewrite Hn2, Hn3, Hn1.
Qed.

Lemma glue_flattens_witness :
  ∃ inner h1 nested h2 flat h3,
    glue [input_node 0 ["a"] S0; input_node 1 ["b"] S0] 3 = Ok (inner, h1) ∧
    glue [inner; input_node 2 ["c"] S0] h1 = Ok (nested, h2) ∧
    glue [input_node 0 ["a"] S0; input_node 1 ["b"] S0; input_node 2 ["c"] S0] 3
    = Ok (flat, h3) ∧
    schema nested = schema flat.
Proof.
  destruct (glue_flattens [input_node 0 ["a"] S0; input_node 1 ["b"] S0]
              [input_node 2 ["c"] S0] (input_node 0 ["a"] S0) 3 3)
    as (inner & h1 & nested & h2 & flat & h3 & Hg1 & Hg2 & Hg3 & Hs & _).
  - reflexivity.
  - simpl. unfold MAX_NUM_ARGUMENTS. lia.
  - intros x. simpl. rewrite !elem_of_cons, elem_of_nil. by intros [->|[->|[->|[]]]].
  - unfold disjoint_feature_names. simpl. by apply (bool_decide_unpack _).
  - by exists inner, h1, nested, h2, flat, h3.
Defined.


(** X9.  The operator definition declares [MAX_NUM_ARGUMENTS] input slots
    with pairwise different names, of which exactly [input_0] and
    [input_1] are required, and the single output slot [output]; the keys
    that [glue] gives to at most [MAX_NUM_ARGUMENTS] nodes are pairwise
    different declared slots, and for exactly that many nodes they are
    all the declared slots. *)
Theorem build_op_definition_slots :
  length (def_inputs build_op_definition) = MAX_NUM_ARGUMENTS ∧
  NoDup (def_inputs build_op_definition).*1 ∧
  (∀ k optional, (k, optional) ∈ def_inputs build_op_definition →
                 optional = false ↔ k = input_key 0 ∨ k = input_key 1) ∧
  def_outputs build_op_definition = ["output"] ∧
  ∀ nodes : list Node,
    (length nodes ≤ MAX_NUM_ARGUMENTS →
     NoDup (inputs_dict nodes).*1 ∧
     ∀ k, k ∈ (inputs_dict nodes).*1 → k ∈ (def_inputs build_op_definition).*1) ∧
    (length nodes = MAX_NUM_ARGUMENTS →
     (inputs_dict nodes).*1 = (def_inputs build_op_definition).*1).
Proof.
  assert ((def_inputs build_op_definition).*1 = input_key <$> seq 0 MAX_NUM_ARGUMENTS) as Hk.
  { unfold build_op_definition. cbn [def_inputs]. by rewrite <- list_fmap_compose. }
  split_and!.
  - unfold build_op_definition. cbn [def_inputs]. by rewrite length_fmap, length_seq.
  - rewrite Hk. apply NoDup_fmap_2; [apply _ | apply NoDup_seq].
  - unfold build_op_definition. cbn [def_inputs].
    intros k optional (idx & [= -> ->] & _)%list_elem_of_fmap.
    rewrite bool_decide_eq_false. split.
    + intros H. destruct idx as [|[|idx]]; [by left | by right | lia].
    + intros [H|H]; apply (inj input_key) in H; lia.
  - done.
  - intros nodes. split.
    + intros Hlen. by apply inputs_dict_slots_valid.
    + intros Hlen. by rewrite inputs_dict_keys, Hk, Hlen.
Qed.

End GlueMore.

(** *** Unary operators: more on the constructor *)

Module UnaryMore.
Import Base Unary BaseFacts UnaryFacts.

(** What a unary operator that succeeds was given and has returned. *)
Lemma output_of_Ok_inv cls input heap out heap' :
  output_of cls (PyNode input) heap = Ok (out, heap') →
  Forall (fun f => Feature.dtype f ∈ allowed_dtypes cls) (Node.features input) ∧
  out = unary_output cls input heap ∧ heap' = S heap.
Proof.
  intros Ho.
  destruct (first_disallowed cls (Node.features input))
    as [Hall|(pre & f & post & Hf & Hpre & Hd)].
  - rewrite output_of_Ok in Ho by done. by injection Ho as <- <-.
  - unfold output_of in Ho.
    by rewrite (BaseUnaryOperator_Raise cls input heap pre f post) in Ho.
Qed.

(** Each registered operator maps the dtypes it allows to dtypes it
    allows, and mapping twice is mapping once. *)
Lemma registered_closed cls d :
  cls ∈ registered → d ∈ allowed_dtypes cls →
  get_output_dtype cls d ∈ allowed_dtypes cls ∧
  get_output_dtype cls (get_output_dtype cls d) = get_output_dtype cls d.
Proof.
  unfold registered. rewrite !elem_of_cons, elem_of_nil.
  intros [->|[->|[->|[->|[->|[]]]]]]; simpl; (split; [|done]); try done;
    rewrite ?elem_of_cons; auto.
Qed.

(** X10.  As the docstring of [notnan] says, [invert(isnan(x))] stands for
    [notnan(x)]: whenever [isnan] accepts a node, [invert] accepts the
    result, and the node it returns has the feature names, the dtypes
    (all boolean) and the sampling object of the node [notnan] returns. *)
Theorem notnan_is_invert_of_isnan (input : Node.t) (heap heap0 : Heap) :
  Forall (fun f => Feature.dtype f ∈ allowed_dtypes IsNanOperator) (Node.features input) →
  ∃ a h1 b h2 c h3,
    isnan (PyNode input) heap = Ok (a, h1) ∧ invert (PyNode a) h1 = Ok (b, h2) ∧
    notnan (PyNode input) heap0 = Ok (c, h3) ∧
    Feature.name <$> Node.features b = Feature.name <$> Node.features c ∧
    Feature.dtype <$> Node.features b = Feature.dtype <$> Node.features c ∧
    Forall (fun f => Feature.dtype f = BOOLEAN) (Node.features b) ∧
    Node.sampling b = Node.sampling c.
Proof.
  intros Hall. unfold isnan, invert, notnan.
  assert (Forall (fun f => Feature.dtype f ∈ allowed_dtypes InvertOperator)
            (Node.features (unary_output IsNanOperator input heap))) as Hinv.
  { unfold unary_output. simpl. apply Forall_fmap, Forall_true. intros f. simpl. left. }
  exists (unary_output IsNanOperator input heap), (S heap),
    (unary_output InvertOperator (unary_output IsNanOperator input heap) (S heap)),
    (S (S heap)), (unary_output NotNanOperator input heap0), (S heap0).
  split_and!; try (by apply output_of_Ok).
  - unfold unary_output. simpl. by rewrite <- !list_fmap_compose.
  - unfold unary_output. simpl. by rewrite <- !list_fmap_compose.
  - unfold unary_output. simpl. rewrite <- list_fmap_compose.
    apply Forall_fmap, Forall_true. done.
  - done.
Qed.

Lemma notnan_is_invert_of_isnan_witness :
  ∃ a h1 b h2,
    isnan (PyNode (input_node [("f", FLOAT64); ("g", INT32)])) 0 = Ok (a, h1) ∧
    invert (PyNode a) h1 = Ok (b, h2) ∧
    Feature.dtype <$> Node.features b = [BOOLEAN; BOOLEAN].
Proof.
  destruct (notnan_is_invert_of_isnan (input_node [("f", FLOAT64); ("g", INT32)]) 0 0)
    as (a & h1 & b & h2 & c & h3 & Ha & Hb & Hc & _ & Hd & _).
  - repeat constructor.
  - exists a, h1, b, h2. split_and!; [done | done |].
    rewrite Hd. unfold notnan in Hc. rewrite output_of_Ok in Hc by repeat constructor.
    by injection Hc as <- <-.
Defined.

(** X11.  Every registered unary operator can be applied to its own
    result: if it accepts a node, it accepts the node it returned, and
    the second result has the names, the dtypes and the sampling object
    of the first. *)
Theorem registered_operator_applies_to_its_output
    (cls : UnaryOperator) (input out : Node.t) (heap h1 : Heap) :
  cls ∈ registered → output_of cls (PyNode input) heap = Ok (out, h1) →
  ∃ out2 h2,
    output_of cls (PyNode out) h1 = Ok (out2, h2) ∧
    Feature.name <$> Node.features out2 = Feature.name <$> Node.features out ∧
    Feature.dtype <$> Node.features out2 = Feature.dtype <$> Node.features out ∧
    Node.sampling out2 = Node.sampling out.
Proof.
  intros Hreg (Hall & -> & ->)%output_of_Ok_inv.
  assert (Forall (fun f => Feature.dtype f ∈ allowed_dtypes cls)
            (Node.features (unary_output cls input heap))) as Hout.
  { unfold unary_output. simpl. apply Forall_fmap.
    eapply Forall_impl; [exact Hall|]. intros f Hf. simpl.
    by apply registered_closed. }
  do 2 eexists. split; [by apply output_of_Ok|].
  unfold unary_output. simpl. rewrite <- !list_fmap_compose.
  split_and!; [done | | done].
  apply Forall_fmap_ext. eapply Forall_impl; [exact Hall|].
  intros f Hf. simpl. by apply registered_closed.
Qed.

Lemma registered_operator_applies_to_its_output_witness :
  ∃ out out2 h1 h2,
    abs (PyNode (input_node [("f", INT64)])) 0 = Ok (out, h1) ∧
    abs (PyNode out) h1 = Ok (out2, h2) ∧
    Feature.dtype <$> Node.features out2 = [INT64].
Proof.
  assert (output_of AbsOperator (PyNode (input_node [("f", INT64)])) 0
          = Ok (unary_output AbsOperator (input_node [("f", INT64)]) 0, 1)) as Ho
    by reflexivity.
  destruct (registered_operator_applies_to_its_output AbsOperator _ _ 0 1
              ltac:(unfold registered; set_solver) Ho) as (out2 & h2 & H2 & _ & Hd & _).
  do 4 eexists. split_and!; [exact Ho | exact H2 | by rewrite Hd].
Defined.

(** X12.  No registered unary operator accepts a string feature: on a
    node with such a feature each of them raises the [ValueError] of the
    dtype loop, for some feature of the node whose dtype it does not
    allow. *)
Theorem registered_operators_reject_strings
    (cls : UnaryOperator) (input : Node.t) (heap : Heap) (f : Feature.t) :
  cls ∈ registered → f ∈ Node.features input → Feature.dtype f = STRING →
  ∃ g, g ∈ Node.features input ∧ (Feature.dtype g ∉ allowed_dtypes cls) ∧
       output_of cls (PyNode input) heap
       = Raise (ValueError (DTypes_supported (allowed_dtypes cls) (Feature.name g)
                                             (Feature.dtype g))).
Proof.
  intros Hreg Hf Hs.
  destruct (first_disallowed cls (Node.features input))
    as [Hall|(pre & g & post & Hg & Hpre & Hd)].
  - rewrite Forall_forall in Hall. specialize (Hall f Hf). rewrite Hs in Hall.
    exfalso. revert Hreg Hall. unfold registered. rewrite !elem_of_cons, elem_of_nil.
    intros [->|[->|[->|[->|[->|[]]]]]]; simpl; rewrite ?elem_of_cons, ?elem_of_nil;
      naive_solver.
  - exists g. split_and!; [rewrite Hg; set_solver | done |].
    apply output_of_Raise. by apply BaseUnaryOperator_Raise with (pre := pre) (post := post).
Qed.

Lemma registered_operators_reject_strings_witness :
  ∃ g, g ∈ Node.features (input_node [("f", FLOAT64); ("s", STRING)]) ∧
       isnan (PyNode (input_node [("f", FLOAT64); ("s", STRING)])) 0
       = Raise (ValueError (DTypes_supported [BOOLEAN; FLOAT32; FLOAT64; INT32; INT64]
                                             (Feature.name g) (Feature.dtype g))).
Proof.
  destruct (registered_operators_reject_strings IsNanOperator
              (input_node [("f", FLOAT64); ("s", STRING)]) 0
              {| Feature.name := "s"; Feature.dtype := STRING;
                 Feature.sampling := sampling_0; Feature.creator := None |})
    as (g & Hin & _ & Hg).
  - unfold registered. set_solver.
  - simpl. set_solver.
  - reflexivity.
  - exists g. split; [done|]. exact Hg.
Defined.

(** X13.  A unary operator raises only the two exceptions of its
    constructor, each on exactly its inputs: the [TypeError] for every
    input that is not a node and for no node, and the [ValueError] of the
    dtype loop for every node that has a feature whose dtype is not
    allowed, for the first such feature, and for no other input.  The
    slot checks of the base class and the lookup of the output never
    fail. *)
Theorem unary_raises_only (cls : UnaryOperator) (input : PyObject) (heap : Heap) :
  (∀ e, output_of cls input heap = Raise e ↔
        (∃ type_name, input = PyOther type_name ∧
                      e = TypeError (Input_must_be_Node type_name)) ∨
        (∃ node pre f post,
            input = PyNode node ∧ Node.features node = pre ++ f :: post ∧
            Forall (fun g => Feature.dtype g ∈ allowed_dtypes cls) pre ∧
            (Feature.dtype f ∉ allowed_dtypes cls) ∧
            e = ValueError (DTypes_supported (allowed_dtypes cls) (Feature.name f)
                                             (Feature.dtype f)))) ∧
  ((∃ m, output_of cls input heap = Raise (TypeError m)) ↔
   ∃ type_name, input = PyOther type_name).
Proof.
  destruct input as [node|type_name].
  - assert (∀ e, output_of cls (PyNode node) heap = Raise e →
                 ∃ pre f post,
                   Node.features node = pre ++ f :: post ∧
                   Forall (fun g => Feature.dtype g ∈ allowed_dtypes cls) pre ∧
                   (Feature.dtype f ∉ allowed_dtypes cls) ∧
                   e = ValueError (DTypes_supported (allowed_dtypes cls) (Feature.name f)
                                                    (Feature.dtype f))) as Hinv.
    { intros e He.
      destruct (first_disallowed cls (Node.features node))
        as [Hall|(pre & f & post & Hf & Hpre & Hd)].
      - by rewrite output_of_Ok in He.
      - exists pre, f, post. split_and!; [done | done | done |].
        rewrite (output_of_Raise cls (PyNode node) heap _
                   (BaseUnaryOperator_Raise cls node heap pre f post Hf Hpre Hd)) in He.
        by injection He as <-. }
    split.
    + intros e. split.
      * intros (pre & f & post & ? & ? & ? & ?)%Hinv. right. by exists node, pre, f, post.
      * intros [(ty & ? & _)|(node' & pre & f & post & Hn & Hf & Hpre & Hd & ->)]; [done|].
        injection Hn as <-. apply output_of_Raise.
        by apply BaseUnaryOperator_Raise with (pre := pre) (post := post).
    + split.
      * intros [m (pre & f & post & _ & _ & _ & ?)%Hinv]. done.
      * by intros [ty ?].
  - split.
    + intros e. split.
      * intros [= <-]. left. by exists type_name.
      * intros [(ty & Hty & ->)|(node & ? & ? & ? & ? & _)]; [|done].
        by injection Hty as <-.
    + split; [by exists type_name | by eexists].
Qed.

Lemma unary_raises_only_witness :
  invert (PyOther "int") 0 = Raise (TypeError (Input_must_be_Node "int")) ∧
  ¬ ∃ m, invert (PyNode (input_node [("f", FLOAT64)])) 0 = Raise (TypeError m).
Proof.
  split.
  - apply (proj1 (unary_raises_only InvertOperator (PyOther "int") 0)).
    left. by exists "int".
  - intros Hm.
    by destruct (proj1 (proj2 (unary_raises_only InvertOperator
                                 (PyNode (input_node [("f", FLOAT64)])) 0)) Hm).
Defined.

(** X14.  What [log] accepts [abs] accepts, with a result of the same
    feature names, dtypes and sampling object; what [abs] or [invert]
    accepts [isnan] accepts; and [isnan] and [notnan] accept the same
    nodes. *)
Theorem unary_acceptance_order (input : Node.t) (heap : Heap) :
  (∀ out h1, log (PyNode input) heap = Ok (out, h1) →
     ∃ out', abs (PyNode input) heap = Ok (out', h1) ∧
             Feature.name <$> Node.features out' = Feature.name <$> Node.features out ∧
             Feature.dtype <$> Node.features out' = Feature.dtype <$> Node.features out ∧
             Node.sampling out' = Node.sampling out) ∧
  ((∃ r, abs (PyNode input) heap = Ok r) → ∃ r, isnan (PyNode input) heap = Ok r) ∧
  ((∃ r, invert (PyNode input) heap = Ok r) → ∃ r, isnan (PyNode input) heap = Ok r) ∧
  ((∃ r, isnan (PyNode input) heap = Ok r) ↔ ∃ r, notnan (PyNode input) heap = Ok r).
Proof.
  assert (∀ c1 c2 : UnaryOperator,
            (∀ d, d ∈ allowed_dtypes c1 → d ∈ allowed_dtypes c2) →
            (∃ r, output_of c1 (PyNode input) heap = Ok r) →
            ∃ r, output_of c2 (PyNode input) heap = Ok r) as Hsub.
  { intros c1 c2 Hincl [[out h1] (Hall & _)%output_of_Ok_inv].
    eexists. apply output_of_Ok. eapply Forall_impl; [exact Hall|]. naive_solver. }
  unfold log, abs, invert, isnan, notnan. split_and!.
  - intros out h1 (Hall & -> & ->)%output_of_Ok_inv.
    exists (unary_output AbsOperator input heap). split; [|done].
    apply output_of_Ok.
    eapply Forall_impl; [exact Hall|]. intros f. simpl. rewrite !elem_of_cons. tauto.
  - apply Hsub. intros d. simpl. rewrite !elem_of_cons. tauto.
  - apply Hsub. intros d. simpl. rewrite !elem_of_cons. tauto.
  - split; apply Hsub; done.
Qed.

End UnaryMore.
